(** * Search, query prediction and analytics of ai-services: a shallow embedding

    The development follows three source files of the repository:
    - [services/search/search_engine.py]      (class [SearchEngine]),
    - [services/search/app/endpoints/search.py] (the [/predict] and [/] routes),
    - [services/search/database_manager.py]   (class [DatabaseManager]).

    Python values are modelled as the code uses them: [int] as [Z], [str] as
    [string], a [dict] as a [gmap], a list as a [list], a [float] that is only
    copied around as a rational [Q].  A call that may raise returns a [result];
    code that also mutates the connection, the logger or a collaborator runs in
    a small state-and-exception monad [M]. *)

From Stdlib Require Import ZArith QArith Lia.
From stdpp Require Import base option list gmap strings pretty.

Local Open Scope string_scope.
Local Open Scope list_scope.
Local Open Scope Z_scope.

#[local] Set Warnings "-clear-no-such-hyp".

(** ** Exceptions and results *)

(** The subclasses of [Exception] that the modelled code raises or catches.
    [ExternalError] stands for whatever an external collaborator (encoder,
    vector index, attributor, a stand-in prediction source) may raise. *)
Inductive exn : Type :=
| KeyError (key : Z)
| AttributeError (cls attr : string)
| TypeError (msg : string)
| IndexError (msg : string)
| DatabaseError (msg : string)
| ExternalError (msg : string)
| HTTPException (status_code : Z) (detail : string).

(** [str(e)] *)
Definition str_exn (e : exn) : string :=
  match e with
  | KeyError key => pretty key
  | AttributeError cls attr =>
      "'" +:+ cls +:+ "' object has no attribute '" +:+ attr +:+ "'"
  | TypeError msg => msg
  | IndexError msg => msg
  | DatabaseError msg => msg
  | ExternalError msg => msg
  | HTTPException _ detail => detail
  end.

Inductive result (A : Type) : Type :=
| Ok (a : A)
| Raise (e : exn).
Arguments Ok {A} a.
Arguments Raise {A} e.

#[global] Instance result_ret : MRet result := λ A a, Ok a.
#[global] Instance result_bind : MBind result := λ A B f r,
  match r with
  | Ok a => f a
  | Raise e => Raise e
  end.

(** ** The persisted store behind [DatabaseManager] *)

Module Store.

(** Modelled from the spec: the schema module [database_setup] is not among
    the sources.  The tables [query_history_ai], [search_logs],
    [expert_searches] and [search_sessions] have the columns that the SQL
    text of the modelled methods names, a serial primary key where the
    statement returns one, and the defaults of the spec's data model
    ([clicked] false, [click_timestamp] null, counters zero).  A table is
    the list of its rows in insertion order. *)
Record QueryHistoryRow : Type := {
  qh_query_id : Z;
  qh_query : string;
  qh_result_count : Z;
  qh_search_type : string;
  qh_user_id : option string
}.

Record SearchLogRow : Type := {
  sl_id : Z;
  sl_query : string;
  sl_user_id : string;
  sl_response_time : Q;
  sl_result_count : Z;
  sl_search_type : string;
  sl_success_rate : Q;
  sl_clicked : bool
}.

Record ExpertSearchRow : Type := {
  es_search_id : Z;
  es_expert_id : string;
  es_rank_position : Z;
  es_clicked : bool;
  es_click_timestamp : option Z
}.

Record SessionRow : Type := {
  ss_id : Z;
  ss_user_id : string;
  ss_query_count : Z;
  ss_successful_searches : Z;
  ss_end_timestamp : option Z
}.

Record Tables : Type := {
  query_history_ai : list QueryHistoryRow;
  search_logs : list SearchLogRow;
  expert_searches : list ExpertSearchRow;
  search_sessions : list SessionRow
}.

Definition empty : Tables :=
  {| query_history_ai := []; search_logs := []; expert_searches := [];
     search_sessions := [] |}.

(** The SQL statements issued by the modelled methods, with their
    parameters.  Columns that no modelled statement reads back (the insert
    timestamps, [filters]) are left out. *)
Inductive statement : Type :=
| InsertQueryHistory (query : string) (result_count : Z) (search_type : string)
                     (user_id : option string)
| InsertSearchLog (query user_id : string) (response_time : Q) (result_count : Z)
                  (search_type : string) (success_rate : Q)
| InsertExpertSearch (search_id : Z) (expert_id : string) (rank_position : Z)
| InsertSearchSession (user_id : string)
| UpdateSearchSession (successful : Z) (session_id : Z)
| UpdateSearchLogClicked (search_id : Z)
| UpdateExpertSearchClicked (search_id : Z) (expert_id : string).

(** The next value of a serial key. *)
Definition next_id {A} (rows : list A) : Z := Z.of_nat (length rows) + 1.

(** [SET query_count = query_count + 1,
         successful_searches = successful_searches + %s,
         end_timestamp = NOW()  WHERE id = %s] on one row. *)
Definition bump_session (successful session_id now : Z) (r : SessionRow) : SessionRow :=
  if decide (ss_id r = session_id) then
    {| ss_id := ss_id r;
       ss_user_id := ss_user_id r;
       ss_query_count := ss_query_count r + 1;
       ss_successful_searches := ss_successful_searches r + successful;
       ss_end_timestamp := Some now |}
  else r.

(** [SET clicked = TRUE WHERE id = %s] on one row. *)
Definition click_search_log (search_id : Z) (r : SearchLogRow) : SearchLogRow :=
  if decide (sl_id r = search_id) then
    {| sl_id := sl_id r; sl_query := sl_query r; sl_user_id := sl_user_id r;
       sl_response_time := sl_response_time r;
       sl_result_count := sl_result_count r;
       sl_search_type := sl_search_type r;
       sl_success_rate := sl_success_rate r;
       sl_clicked := true |}
  else r.

(** [SET clicked = TRUE, click_timestamp = NOW()
     WHERE search_id = %s AND expert_id = %s] on one row. *)
Definition click_expert_search (search_id : Z) (expert_id : string) (now : Z)
    (r : ExpertSearchRow) : ExpertSearchRow :=
  if decide (es_search_id r = search_id ∧ es_expert_id r = expert_id) then
    {| es_search_id := es_search_id r;
       es_expert_id := es_expert_id r;
       es_rank_position := es_rank_position r;
       es_clicked := true;
       es_click_timestamp := Some now |}
  else r.

(** The effect of one statement, executed by the server at time [now]: the
    new tables and the result set ([None] when the statement returns no
    rows, otherwise the single [RETURNING] column). *)
Definition run (q : statement) (now : Z) (t : Tables) : Tables * option (list Z) :=
  match q with
  | InsertQueryHistory query result_count search_type user_id =>
      let id := next_id (query_history_ai t) in
      ({| query_history_ai := query_history_ai t ++
            [ {| qh_query_id := id; qh_query := query;
                 qh_result_count := result_count;
                 qh_search_type := search_type; qh_user_id := user_id |} ];
          search_logs := search_logs t;
          expert_searches := expert_searches t;
          search_sessions := search_sessions t |}, Some [id])
  | InsertSearchLog query user_id response_time result_count search_type success_rate =>
      let id := next_id (search_logs t) in
      ({| query_history_ai := query_history_ai t;
          search_logs := search_logs t ++
            [ {| sl_id := id; sl_query := query; sl_user_id := user_id;
                 sl_response_time := response_time;
                 sl_result_count := result_count;
                 sl_search_type := search_type;
                 sl_success_rate := success_rate;
                 sl_clicked := false |} ];
          expert_searches := expert_searches t;
          search_sessions := search_sessions t |}, Some [id])
  | InsertExpertSearch search_id expert_id rank_position =>
      ({| query_history_ai := query_history_ai t;
          search_logs := search_logs t;
          expert_searches := expert_searches t ++
            [ {| es_search_id := search_id; es_expert_id := expert_id;
                 es_rank_position := rank_position;
                 es_clicked := false; es_click_timestamp := None |} ];
          search_sessions := search_sessions t |}, None)
  | InsertSearchSession user_id =>
      let id := next_id (search_sessions t) in
      ({| query_history_ai := query_history_ai t;
          search_logs := search_logs t;
          expert_searches := expert_searches t;
          search_sessions := search_sessions t ++
            [ {| ss_id := id; ss_user_id := user_id; ss_query_count := 0;
                 ss_successful_searches := 0; ss_end_timestamp := None |} ] |},
       Some [id])
  | UpdateSearchSession successful session_id =>
      ({| query_history_ai := query_history_ai t;
          search_logs := search_logs t;
          expert_searches := expert_searches t;
          search_sessions := bump_session successful session_id now <$> search_sessions t |},
       None)
  | UpdateSearchLogClicked search_id =>
      ({| query_history_ai := query_history_ai t;
          search_logs := click_search_log search_id <$> search_logs t;
          expert_searches := expert_searches t;
          search_sessions := search_sessions t |}, None)
  | UpdateExpertSearchClicked search_id expert_id =>
      ({| query_history_ai := query_history_ai t;
          search_logs := search_logs t;
          expert_searches := click_expert_search search_id expert_id now <$> expert_searches t;
          search_sessions := search_sessions t |}, None)
  end.

(** Relations between a row before and after some calls, used to state
    what the calls did to the table. *)

(** The attribution row of ([search_id], [expert_id]) is marked clicked at
    time [now]; any other row keeps its click state. *)
Definition clicked_at (search_id : Z) (expert_id : string) (now : Z)
    (before after : ExpertSearchRow) : Prop :=
  es_search_id after = es_search_id before
  ∧ es_expert_id after = es_expert_id before
  ∧ es_rank_position after = es_rank_position before
  ∧ if decide (es_search_id before = search_id ∧ es_expert_id before = expert_id)
    then es_clicked after = true ∧ es_click_timestamp after = Some now
    else es_clicked after = es_clicked before
         ∧ es_click_timestamp after = es_click_timestamp before.

(** The search row [search_id] is marked clicked; any other row is as
    before. *)
Definition search_clicked (search_id : Z) (before after : SearchLogRow) : Prop :=
  sl_id after = sl_id before
  ∧ if decide (sl_id before = search_id) then sl_clicked after = true
    else after = before.

(** The counters of session [session_id] grew by [queries] and
    [successes]; any other session keeps its counters. *)
Definition counted (session_id queries successes : Z)
    (before after : SessionRow) : Prop :=
  ss_id after = ss_id before
  ∧ ss_user_id after = ss_user_id before
  ∧ if decide (ss_id before = session_id)
    then ss_query_count after = ss_query_count before + queries
         ∧ ss_successful_searches after = ss_successful_searches before + successes
    else after = before.

End Store.

(** ** Connection, logger and the monad of effectful code *)

(** The psycopg2 connection with its cursor.  [committed] is what the server
    holds durably, [pending] the tables as the open transaction sees them
    ([commit] publishes them, [rollback] discards them).  [fetched] is the
    result set of the cursor's last statement ([cur.description] is [None]
    when there is none).  [clock] is the server's [NOW()].  [faults] is the
    schedule of server-side failures: the outcome awaiting each of the next
    calls of [cur.execute] ([None], or no entry: the statement runs;
    [Some e]: the call raises [e] and changes nothing). *)
Record Conn : Type := {
  committed : Store.Tables;
  pending : Store.Tables;
  fetched : option (list Z);
  clock : Z;
  faults : list (option exn)
}.

Inductive level : Type := INFO | WARNING | ERROR.

(** The records handed to [logger]; the formatted text is abstracted to the
    call site and the values interpolated into it. *)
Inductive message : Type :=
| QueryExecutionFailed (e : exn) (q : Store.statement)
| ErrorAddingQuery (e : exn)
| ErrorRecordingExpertSearch (e : exn)
| ErrorStartingSession (e : exn)
| ErrorUpdatingSession (e : exn)
| ErrorRecordingClick (e : exn)
| ErrorRecordingAnalytics (e : exn)
| ReceivedPrediction (partial_query : string)
| DBPredictions (db_predictions : list string)
| SearchEnginePredictions (search_predictions : list string)
| SearchEnginePredictionsFailed (e : exn)
| ReturningPredictions (all_predictions : list string)
| PredictionError (e : exn)
| ReceivedSearch (query : string) (limit : Z)
| StoredQuery (query_id : option Z)
| FailedToStoreQuery (db_error : exn)
| SearchError (e : exn).

(** The state a request handler can touch: the shared connection, the log,
    and the trace of calls made to the two prediction sources (receiver
    class and method name, oldest first). *)
Record World : Type := {
  conn : Conn;
  log : list (level * message);
  calls : list (string * string)
}.

Definition set_conn (c : Conn) (w : World) : World :=
  {| conn := c; log := log w; calls := calls w |}.

Definition M (A : Type) : Type := World → result A * World.

#[global] Instance M_ret : MRet M := λ A a w, (Ok a, w).
#[global] Instance M_bind : MBind M := λ A B f m w,
  match m w with
  | (Ok a, w') => f a w'
  | (Raise e, w') => (Raise e, w')
  end.

Definition raise {A} (e : exn) : M A := λ w, (Raise e, w).

(** [try: body  except Exception as e: handler e] *)
Definition try_except {A} (body : M A) (handler : exn → M A) : M A := λ w,
  match body w with
  | (Ok a, w') => (Ok a, w')
  | (Raise e, w') => handler e w'
  end.

Definition lift {A} (r : result A) : M A := λ w, (r, w).

Definition logger (lvl : level) (msg : message) : M unit := λ w,
  (Ok (), {| conn := conn w; log := log w ++ [(lvl, msg)]; calls := calls w |}).

(** No transaction is open: every method of the manager ends with a commit
    or a rollback. *)
Definition quiescent (w : World) : Prop := pending (conn w) = committed (conn w).

(** The environment between two calls: the server's clock moves on, and a
    schedule of failures is installed. *)
Definition at_time (now : Z) (w : World) : World :=
  let c := conn w in
  set_conn {| committed := committed c; pending := pending c;
              fetched := fetched c; clock := now; faults := faults c |} w.

Definition with_faults (fs : list (option exn)) (w : World) : World :=
  let c := conn w in
  set_conn {| committed := committed c; pending := pending c;
              fetched := fetched c; clock := clock c; faults := fs |} w.

(** ** database_manager.py *)

Module DatabaseManager.

(** [self.cur.execute(query, params)] *)
Definition cur_execute (q : Store.statement) : M unit := λ w,
  let c := conn w in
  match faults c with
  | Some e :: rest =>
      (Raise e, set_conn {| committed := committed c; pending := pending c;
                            fetched := fetched c; clock := clock c;
                            faults := rest |} w)
  | _ =>
      let '(t, rows) := Store.run q (clock c) (pending c) in
      (Ok (), set_conn {| committed := committed c; pending := t;
                          fetched := rows; clock := clock c;
                          faults := tail (faults c) |} w)
  end.

(** [self.conn.commit()] *)
Definition conn_commit : M unit := λ w,
  let c := conn w in
  (Ok (), set_conn {| committed := pending c; pending := pending c;
                      fetched := fetched c; clock := clock c;
                      faults := faults c |} w).

(** [self.conn.rollback()] *)
Definition conn_rollback : M unit := λ w,
  let c := conn w in
  (Ok (), set_conn {| committed := committed c; pending := committed c;
                      fetched := fetched c; clock := clock c;
                      faults := faults c |} w).

(** [self.cur.fetchall() if self.cur.description else []] *)
Definition cur_results : M (list Z) := λ w,
  (Ok (default [] (fetched (conn w))), w).

Definition execute (q : Store.statement) : M (list Z) :=
  try_except
    (cur_execute q;;
     conn_commit;;
     cur_results)
    (λ e,
       conn_rollback;;
       logger ERROR (QueryExecutionFailed e q);;
       raise e).

(** [result[0][0] if result else None] *)
Definition first_or_none (result : list Z) : option Z := head result.

Definition add_query (query : string) (result_count : Z) (search_type : string)
    (user_id : option string) : M (option Z) :=
  try_except
    (result ← execute (Store.InsertQueryHistory query result_count search_type user_id);
     mret (first_or_none result))
    (λ e, logger ERROR (ErrorAddingQuery e);; raise e).

(** [result[0][0]]; the modelled statements return at most one row, and a
    missing row would be an [IndexError]. *)
Definition first_row (result : list Z) : M Z :=
  match result with
  | id :: _ => mret id
  | [] => raise (IndexError "list index out of range")
  end.

Definition record_search_analytics (query user_id : string) (response_time : Q)
    (result_count : Z) (search_type : string) : M Z :=
  try_except
    (result ← execute (Store.InsertSearchLog query user_id response_time result_count
                         search_type (if 0 <? result_count then 1%Q else 0%Q));
     first_row result)
    (λ e, logger ERROR (ErrorRecordingAnalytics e);; raise e).

Definition record_expert_search (search_id : Z) (expert_id : string)
    (rank_position : Z) : M unit :=
  try_except
    (execute (Store.InsertExpertSearch search_id expert_id rank_position);;
     mret ())
    (λ e, logger ERROR (ErrorRecordingExpertSearch e);; raise e).

Definition start_search_session (user_id : string) : M Z :=
  try_except
    (result ← execute (Store.InsertSearchSession user_id);
     first_row result)
    (λ e, logger ERROR (ErrorStartingSession e);; raise e).

Definition update_search_session (session_id : Z) (successful : bool) : M unit :=
  try_except
    (execute (Store.UpdateSearchSession (if successful then 1 else 0) session_id);;
     mret ())
    (λ e, logger ERROR (ErrorUpdatingSession e);; raise e).

(** [if expert_id:] on a [str] that defaults to [None]. *)
Definition truthy (expert_id : option string) : bool :=
  match expert_id with
  | Some s => negb (String.eqb s EmptyString)
  | None => false
  end.

Definition record_click (search_id : Z) (expert_id : option string) : M unit :=
  try_except
    (execute (Store.UpdateSearchLogClicked search_id);;
     if truthy expert_id then
       execute (Store.UpdateExpertSearchClicked search_id (default EmptyString expert_id));;
       mret ()
     else mret ())
    (λ e, logger ERROR (ErrorRecordingClick e);; raise e).

(** *** The calls of one request as steps on the shared connection

    The module holds one [DatabaseManager], hence one connection and one
    cursor, for all requests.  Two requests that run concurrently take turns
    on it call by call: the unit of interleaving is one call of
    [cur.execute] or of [conn.commit]. *)
Inductive action : Type :=
| CurExecute (q : Store.statement)
| ConnCommit.

Definition run_action (a : action) : M unit :=
  match a with
  | CurExecute q => cur_execute q
  | ConnCommit => conn_commit
  end.

Fixpoint run_actions (acts : list action) : M unit :=
  match acts with
  | [] => mret ()
  | a :: rest => run_action a;; run_actions rest
  end.

(** The connection calls of [update_search_session] on its normal path, in
    program order. *)
Definition update_search_session_actions (session_id : Z) (successful : bool)
  : list action :=
  [ CurExecute (Store.UpdateSearchSession (if successful then 1 else 0) session_id);
    ConnCommit ].

(** [sched] is a schedule of two requests: it contains the steps of each in
    program order. *)
Inductive interleaving {A} : list A → list A → list A → Prop :=
| interleaving_nil : interleaving [] [] []
| interleaving_left x l1 l2 sched :
    interleaving l1 l2 sched → interleaving (x :: l1) l2 (x :: sched)
| interleaving_right x l1 l2 sched :
    interleaving l1 l2 sched → interleaving l1 (x :: l2) (x :: sched).

End DatabaseManager.

(** ** search_engine.py *)

Module SearchEngine.

Record Expert : Type := { expert_id : string; expert_name : string }.

(** One entry of the list built by [search]: the dict with keys
    ['metadata'], ['similarity_score'] and ['experts']. *)
Record SearchResult : Type := {
  metadata : gmap string string;
  similarity_score : Q;
  experts : list Expert
}.

(** The attributes of a [SearchEngine] instance that [search] reads.  The
    encoder and the FAISS index are external libraries and [ExpertsManager]
    is not among the sources: the three are taken as functions that may
    raise;
    [index_search v k] returns the rows [D[0]] and [I[0]] of the reply
    (written [D0] and [I0] below).
    [chunk_mapping] is the unpickled dict (the code iterates it with
    [.items()]). *)
Record t : Type := {
  get_embedding : string → result (list Q);
  index_search : list Q → Z → result (list Q * list Z);
  chunk_mapping : gmap Z (gmap string string);
  find_experts_by_domain : string → result (list Expert)
}.

(** [result['metadata'].get('Domain', ' ')] *)
Definition domain_of (md : gmap string string) : string :=
  default " " (md !! "Domain").

(** The body of the [for idx, score in zip(I[0], D[0])] loop, with
    [results] the list built so far. *)
Fixpoint search_loop (se : t) (pairs : list (Z * Q)) (results : list SearchResult)
  : result (list SearchResult) :=
  match pairs with
  | [] => Ok results
  | (idx, score) :: rest =>
      match chunk_mapping se !! idx with
      | None => Raise (KeyError idx)
      | Some md =>
          found ← find_experts_by_domain se (domain_of md);
          search_loop se rest
            (results ++ [ {| metadata := md;
                             similarity_score := score;
                             experts := take 3 found |} ])
      end
  end.

Definition search (se : t) (query : string) (k : Z) : result (list SearchResult) :=
  query_vector ← get_embedding se query;
  '(D0, I0) ← index_search se query_vector k;
  search_loop se (zip I0 D0) [].

(** *** What the vector index promises

    A flat FAISS index over [ntotal] vectors answers a request for [k]
    neighbours with exactly [k] slots: the first [min k ntotal] hold pairwise
    distinct ordinals of the corpus, the others hold the "no match" ordinal
    [-1]. *)
Definition sentinel : Z := -1.

Definition index_reply_ok (ntotal : nat) (k : Z) (D0 : list Q) (I0 : list Z) : Prop :=
  Z.of_nat (length I0) = k
  ∧ length D0 = length I0
  ∧ NoDup (take ntotal I0)
  ∧ Forall (λ i, 0 ≤ i < Z.of_nat ntotal) (take ntotal I0)
  ∧ Forall (λ i, i = sentinel) (drop ntotal I0).

(** The catalog is ordinal-synchronised with the index: its keys are exactly
    the ordinals [0 .. ntotal-1]. *)
Definition catalog_synchronized (se : t) (ntotal : nat) : Prop :=
  dom (chunk_mapping se) = list_to_set (seqZ 0 (Z.of_nat ntotal)).

Definition attributor_total (se : t) : Prop :=
  ∀ domain, ∃ found, find_experts_by_domain se domain = Ok found.

(** [r] is the entry the loop builds from ordinal [idx] and distance [score]. *)
Definition built_from (se : t) (r : SearchResult) (hit : Z * Q) : Prop :=
  chunk_mapping se !! hit.1 = Some (metadata r)
  ∧ similarity_score r = hit.2
  ∧ ∃ found, find_experts_by_domain se (domain_of (metadata r)) = Ok found
             ∧ experts r = take 3 found.

End SearchEngine.

(** ** app/endpoints/search.py *)

Module Endpoints.

(** [str.lower()], on the ASCII letters. *)
Definition lower_ascii (c : Ascii.ascii) : Ascii.ascii :=
  let n := Ascii.N_of_ascii c in
  if ((65 <=? n) && (n <=? 90))%N then Ascii.ascii_of_N (n + 32) else c.

Fixpoint lower (s : string) : string :=
  match s with
  | EmptyString => EmptyString
  | String c rest => String (lower_ascii c) (lower rest)
  end.

(** [xs[:stop]]: a negative [stop] counts from the end. *)
Definition slice_to {A} (xs : list A) (stop : Z) : list A :=
  if 0 <=? stop then take (Z.to_nat stop) xs
  else take (Z.to_nat (Z.of_nat (length xs) + stop)) xs.

(** What the handler sees of a module-level collaborator ([db_manager],
    [search_engine]) when it calls a prediction method on it: the class
    name, the attribute names that resolve on the instance, and what calling
    attribute [name] with the keywords [partial_query=], [limit=] does. *)
Record PyObject : Type := {
  class_name : string;
  attributes : list string;
  invoke : string → string → Z → M (list string)
}.

(** [obj.name(partial_query=..., limit=...)]: the attribute is resolved
    first; a call that takes place is recorded in the trace. *)
Definition call_method (obj : PyObject) (name : string) (partial_query : string)
    (limit : Z) : M (list string) :=
  if decide (name ∈ attributes obj) then
    (λ w, (Ok (), {| conn := conn w; log := log w;
                     calls := calls w ++ [(class_name obj, name)] |}));;
    invoke obj name partial_query limit
  else raise (AttributeError (class_name obj) name).

(** The first loop: [for pred in db_predictions]. *)
Fixpoint add_db_predictions (db_predictions : list string)
    (all_predictions : list string) (seen : gset string)
  : list string * gset string :=
  match db_predictions with
  | [] => (all_predictions, seen)
  | pred :: rest =>
      if decide (lower pred ∉ seen) then
        add_db_predictions rest (all_predictions ++ [pred]) (seen ∪ {[ lower pred ]})
      else add_db_predictions rest all_predictions seen
  end.

(** The second loop: [for pred in search_predictions]. *)
Fixpoint add_search_predictions (limit : Z) (search_predictions : list string)
    (all_predictions : list string) (seen : gset string)
  : list string * gset string :=
  match search_predictions with
  | [] => (all_predictions, seen)
  | pred :: rest =>
      if decide ((lower pred ∉ seen) ∧ (Z.of_nat (length all_predictions) < limit)) then
        add_search_predictions limit rest (all_predictions ++ [pred])
                               (seen ∪ {[ lower pred ]})
      else add_search_predictions limit rest all_predictions seen
  end.

(** Both loops, from [all_predictions = []] and [seen = set()]. *)
Definition combine_predictions (db_predictions search_predictions : list string)
    (limit : Z) : list string :=
  let '(all_predictions, seen) := add_db_predictions db_predictions [] ∅ in
  fst (add_search_predictions limit search_predictions all_predictions seen).

(** The value returned after the loops: [all_predictions[:limit]]. *)
Definition merge_predictions (db_predictions search_predictions : list string)
    (limit : Z) : list string :=
  slice_to (combine_predictions db_predictions search_predictions limit) limit.

Definition predict_queries (db_manager search_engine : PyObject)
    (partial_query : string) (limit : Z) : M (list string) :=
  logger INFO (ReceivedPrediction partial_query);;
  try_except
    (if decide (String.length partial_query < 2)%nat then mret []
     else
       db_predictions ← call_method db_manager "get_matching_queries" partial_query limit;
       logger INFO (DBPredictions db_predictions);;
       search_predictions ←
         try_except
           (found ← call_method search_engine "predict_queries" partial_query limit;
            logger INFO (SearchEnginePredictions found);;
            mret found)
           (λ e, logger WARNING (SearchEnginePredictionsFailed e);; mret []);
       let all_predictions :=
         combine_predictions db_predictions search_predictions limit in
       logger INFO (ReturningPredictions all_predictions);;
       mret (slice_to all_predictions limit))
    (λ e,
       logger ERROR (PredictionError e);;
       raise (HTTPException 500 (str_exn e))).

Definition unexpected_keyword (name : string) : exn :=
  TypeError (name +:+ "() got an unexpected keyword argument 'partial_query'").

(** The two collaborators as the sources define them.  [attributes] lists
    the methods of the class body and the attributes assigned in
    [__init__].  None of the methods accepts the keyword [partial_query]
    and the data attributes are not callable, so a call of an attribute
    that does resolve ends in a [TypeError]. *)
Definition DatabaseManager_object : PyObject := {|
  class_name := "DatabaseManager";
  attributes :=
    [ "conn"; "cur"; "__init__"; "execute"; "add_expert"; "add_publication";
      "add_author"; "add_tag"; "link_author_publication"; "link_publication_tag";
      "update_expert"; "get_expert_by_name"; "get_recent_queries";
      "get_term_frequencies"; "get_popular_queries"; "get_user_queries";
      "add_query"; "record_search_analytics"; "record_expert_search";
      "record_query_prediction"; "start_search_session"; "update_search_session";
      "record_click"; "get_search_metrics"; "get_expert_metrics";
      "get_performance_metrics"; "close"; "__del__" ];
  invoke := λ name _ _, raise (unexpected_keyword name)
|}.

Definition SearchEngine_object : PyObject := {|
  class_name := "SearchEngine";
  attributes :=
    [ "embedding_model"; "index_path"; "mapping_path"; "index"; "chunk_mapping";
      "experts_manager"; "__init__"; "search"; "get_summary_by_title";
      "search_by_title" ];
  invoke := λ name _ _, raise (unexpected_keyword name)
|}.

(** One element of [formatted_results]. *)
Record FormattedResult : Type := {
  title : string;
  abstract : string;
  summary : string;
  tags : string;
  authors : string;
  similarity_score : Q
}.

Definition format_result (r : SearchEngine.SearchResult) : FormattedResult :=
  let md := SearchEngine.metadata r in
  {| title := default EmptyString (md !! "title");
     abstract := default EmptyString (md !! "abstract");
     summary := default EmptyString (md !! "summary");
     tags := default EmptyString (md !! "tags");
     authors := default EmptyString (md !! "authors");
     similarity_score := SearchEngine.similarity_score r |}.

(** The [/] route.  [add_query] is the method bound on [db_manager], taken
    with the keywords the handler passes ([user_id] keeps its default). *)
Definition search (search_engine : SearchEngine.t)
    (add_query : string → Z → string → option string → M (option Z))
    (query : string) (limit : Z) : M (list FormattedResult) :=
  try_except
    (logger INFO (ReceivedSearch query limit);;
     results ← lift (SearchEngine.search search_engine query limit);
     try_except
       (query_id ← add_query query (Z.of_nat (length results)) "semantic" None;
        logger INFO (StoredQuery query_id))
       (λ db_error, logger ERROR (FailedToStoreQuery db_error));;
     mret (format_result <$> results))
    (λ e,
       logger ERROR (SearchError e);;
       raise (HTTPException 500 (str_exn e))).

End Endpoints.

(** ** The prediction merge as the spec words it *)

Module PredictSpec.
Import Endpoints.

(** Walk the predictions in order and keep each one whose lower-cased form
    has not been seen before, so that the first-seen variant keeps its
    casing and later variants are skipped. *)
Fixpoint first_seen (seen : gset string) (preds : list string) : list string :=
  match preds with
  | [] => []
  | pred :: rest =>
      if decide (lower pred ∈ seen) then first_seen seen rest
      else pred :: first_seen (seen ∪ {[ lower pred ]}) rest
  end.

Definition seen_of (preds : list string) : gset string := list_to_set (lower <$> preds).

(** The merge of the spec with the dedup key applied to every prediction:
    DB matches first, engine predictions after, first-seen variants only,
    the whole cut to [limit] entries. *)
Definition spec_merge (db_predictions search_predictions : list string) (limit : Z)
  : list string :=
  take (Z.to_nat limit) (first_seen ∅ (db_predictions ++ search_predictions)).

(** The merge read word for word: every DB match is appended, only engine
    predictions are skipped when their lower-cased form was seen, and the
    list is cut to [limit] entries. *)
Definition claimed_merge (db_predictions search_predictions : list string) (limit : Z)
  : list string :=
  take (Z.to_nat limit)
       (db_predictions ++ first_seen (seen_of db_predictions) search_predictions).

End PredictSpec.

(** ** Concrete inputs *)

Module Examples.

Import SearchEngine.

(** A corpus of two chunks behind a flat index that ranks ordinal 1 before
    ordinal 0 for every query and pads a longer reply with the sentinel. *)
Definition chunk (title domain : string) : gmap string string :=
  {[ "Title" := title; "title" := title; "Domain" := domain ]}.

Definition flat_reply (k : Z) : list Q * list Z :=
  (take (Z.to_nat k) ([(1 # 4)%Q; (3 # 4)%Q] ++ replicate (Z.to_nat k) (1000 # 1)%Q)%list,
   take (Z.to_nat k) ([1; 0] ++ replicate (Z.to_nat k) sentinel)%list).

Definition corpus2 : SearchEngine.t := {|
  get_embedding := λ _, Ok [1 # 2; 1 # 3]%Q;
  index_search := λ _ k, Ok (flat_reply k);
  chunk_mapping := {[ 0 := chunk "Malaria vectors" "Health";
                      1 := chunk "Urban growth" "Population" ]};
  find_experts_by_domain := λ domain,
    Ok ((λ n, {| expert_id := n; expert_name := domain |}) <$> ["e1"; "e2"; "e3"; "e4"])
|}.

Definition no_conn : Conn :=
  {| committed := Store.empty; pending := Store.empty; fetched := None;
     clock := 0; faults := [] |}.

Definition fresh_world : World := {| conn := no_conn; log := []; calls := [] |}.

(** A stand-in prediction source whose only attribute is [name]. *)
Definition source (cls name : string) (answer : result (list string))
  : Endpoints.PyObject :=
  {| Endpoints.class_name := cls;
     Endpoints.attributes := [name];
     Endpoints.invoke := λ _ _ _, lift answer |}.

Definition db_source (answer : result (list string)) : Endpoints.PyObject :=
  source "StubDatabaseManager" "get_matching_queries" answer.

Definition engine_source (answer : result (list string)) : Endpoints.PyObject :=
  source "StubSearchEngine" "predict_queries" answer.

(** A store with one logged search (id 1), attributed to expert ["e7"] at
    rank 0, and one session (id 1) opened by ["u1"]; built by the manager's
    own methods on the empty store. *)
Definition seeded_world : World :=
  snd ((DatabaseManager.record_search_analytics "malaria" "u1" (1 # 5)%Q 2 "general";;
        DatabaseManager.record_expert_search 1 "e7" 0;;
        DatabaseManager.start_search_session "u1") fresh_world).

(** The seeded store with one more attribution of search 1, recorded with
    an empty expert id. *)
Definition anonymous_world : World :=
  snd (DatabaseManager.record_expert_search 1 EmptyString 1 seeded_world).

End Examples.

(** ** search_engine.py: the scans by title *)

Module TitleSearch.
Import Endpoints.

(** The scans index every chunk with [doc['Title']]: the outcome is a value
    or the [KeyError('Title')] of a chunk without that key. *)
Inductive outcome (A : Type) : Type :=
| Returned (a : A)
| KeyError_Title.
Arguments Returned {A} a.
Arguments KeyError_Title {A}.

(** [needle in hay] on strings: [needle] occurs in [hay] at some offset. *)
Fixpoint contains (needle hay : string) : bool :=
  String.prefix needle hay
  || match hay with
     | EmptyString => false
     | String _ rest => contains needle rest
     end.

(** [self.chunk_mapping.items()] is taken as the list [items] of the pairs
    in the dict's iteration order, which the [gmap] of [SearchEngine.t] does
    not keep. *)
Definition items_of (se : SearchEngine.t) (items : list (Z * gmap string string))
  : Prop :=
  NoDup items.*1 ∧ list_to_map items = SearchEngine.chunk_mapping se.

Fixpoint get_summary_by_title (items : list (Z * gmap string string))
    (title : string) : outcome (option (gmap string string)) :=
  match items with
  | [] => Returned None
  | (idx, doc) :: rest =>
      match doc !! "Title" with
      | None => KeyError_Title
      | Some doc_title =>
          if String.eqb (lower doc_title) (lower title) then Returned (Some doc)
          else get_summary_by_title rest title
      end
  end.

(** One element of [matching_docs]: the dict with keys ['metadata'] and
    ['similarity']. *)
Record TitleMatch : Type := {
  tm_metadata : gmap string string;
  tm_similarity : Q
}.

(** The loop of [search_by_title], with [matching_docs] the list built so
    far. *)
Fixpoint scan_titles (items : list (Z * gmap string string)) (title_query : string)
    (matching_docs : list TitleMatch) : outcome (list TitleMatch) :=
  match items with
  | [] => Returned matching_docs
  | (idx, doc) :: rest =>
      match doc !! "Title" with
      | None => KeyError_Title
      | Some doc_title =>
          if contains (lower title_query) (lower doc_title) then
            scan_titles rest title_query
              (matching_docs ++ [ {| tm_metadata := doc; tm_similarity := 1%Q |} ])
          else scan_titles rest title_query matching_docs
      end
  end.

(** [list.sort(key=lambda x: x['similarity'], reverse=True)]: a stable sort
    into descending order; entries with equal keys keep their order. *)
Fixpoint insert_by_similarity (x : TitleMatch) (sorted : list TitleMatch)
  : list TitleMatch :=
  match sorted with
  | [] => [x]
  | y :: rest =>
      if Qle_bool (tm_similarity y) (tm_similarity x) then x :: y :: rest
      else y :: insert_by_similarity x rest
  end.

Definition sort_by_similarity (docs : list TitleMatch) : list TitleMatch :=
  foldr insert_by_similarity [] docs.

Definition search_by_title (items : list (Z * gmap string string))
    (title_query : string) (k : Z) : outcome (list TitleMatch) :=
  match scan_titles items title_query [] with
  | Returned matching_docs => Returned (slice_to (sort_by_similarity matching_docs) k)
  | KeyError_Title => KeyError_Title
  end.

(** The chunk has a title, and the title is / is not the one asked for, or
    contains / does not contain the query, letter case apart. *)
Definition titled (doc : gmap string string) : Prop := is_Some (doc !! "Title").

Definition title_is (title : string) (doc : gmap string string) : Prop :=
  ∃ doc_title, doc !! "Title" = Some doc_title ∧ lower doc_title = lower title.

Definition title_is_not (title : string) (doc : gmap string string) : Prop :=
  ∃ doc_title, doc !! "Title" = Some doc_title ∧ lower doc_title ≠ lower title.

Definition title_has (title_query : string) (doc : gmap string string) : bool :=
  match doc !! "Title" with
  | Some doc_title => contains (lower title_query) (lower doc_title)
  | None => false
  end.

Definition as_match (doc : gmap string string) : TitleMatch :=
  {| tm_metadata := doc; tm_similarity := 1%Q |}.

End TitleSearch.

(** ** database_manager.py: sequences of calls *)

Module Requests.
Import DatabaseManager.

(** A call of one of the modelled methods of the manager, with its
    arguments. *)
Inductive call : Type :=
| AddQuery (query : string) (result_count : Z) (search_type : string)
           (user_id : option string)
| RecordSearchAnalytics (query user_id : string) (response_time : Q)
                        (result_count : Z) (search_type : string)
| RecordExpertSearch (search_id : Z) (expert_id : string) (rank_position : Z)
| StartSearchSession (user_id : string)
| UpdateSearchSession (session_id : Z) (successful : bool)
| RecordClick (search_id : Z) (expert_id : option string).

(** The call, its returned value dropped. *)
Definition run_call (c : call) : M unit :=
  match c with
  | AddQuery query result_count search_type user_id =>
      add_query query result_count search_type user_id;; mret ()
  | RecordSearchAnalytics query user_id response_time result_count search_type =>
      record_search_analytics query user_id response_time result_count search_type;;
      mret ()
  | RecordExpertSearch search_id expert_id rank_position =>
      record_expert_search search_id expert_id rank_position
  | StartSearchSession user_id => start_search_session user_id;; mret ()
  | UpdateSearchSession session_id successful =>
      update_search_session session_id successful
  | RecordClick search_id expert_id => record_click search_id expert_id
  end.

(** Calls made one after the other, each at its own time; a call that
    raises does not stop the following ones (each belongs to its own
    request). *)
Definition run_calls (timed : list (Z * call)) (w : World) : World :=
  foldl (λ w tc, snd (run_call tc.2 (at_time tc.1 w))) w timed.

(** [update_search_session session_id successful] once per element of
    [updates], each at its time, in order. *)
Definition session_updates (session_id : Z) (updates : list (Z * bool))
  : list (Z * call) :=
  (λ tb, (tb.1, UpdateSearchSession session_id tb.2)) <$> updates.

Definition successes (updates : list (Z * bool)) : Z :=
  Z.of_nat (length (filter (λ tb, tb.2 = true) updates)).

(** A call of [execute] whose statement [mine] has been run on the shared
    connection, and which commits only after another request's whole call
    of [execute] for [theirs] has taken place. *)
Definition overtaken_execute (mine theirs : Store.statement) : M unit :=
  cur_execute mine;;
  try_except (execute theirs;; mret ()) (λ _, mret ());;
  conn_commit.

(** Relations between the store before and after, used to state what calls
    may do to it. *)

(** [after] is [before], each row possibly changed as [R] allows, followed
    by new rows. *)
Definition extends {A} (R : A → A → Prop) (before after : list A) : Prop :=
  ∃ kept added, after = kept ++ added ∧ Forall2 R before kept.

Definition session_grows (before after : Store.SessionRow) : Prop :=
  Store.ss_id after = Store.ss_id before
  ∧ Store.ss_user_id after = Store.ss_user_id before
  ∧ Store.ss_query_count before ≤ Store.ss_query_count after
  ∧ Store.ss_successful_searches before ≤ Store.ss_successful_searches after.

Definition search_log_grows (before after : Store.SearchLogRow) : Prop :=
  Store.sl_id after = Store.sl_id before
  ∧ Store.sl_query after = Store.sl_query before
  ∧ Store.sl_user_id after = Store.sl_user_id before
  ∧ Store.sl_result_count after = Store.sl_result_count before
  ∧ Store.sl_search_type after = Store.sl_search_type before
  ∧ Store.sl_success_rate after = Store.sl_success_rate before
  ∧ (Store.sl_clicked before = true → Store.sl_clicked after = true).

Definition expert_search_grows (before after : Store.ExpertSearchRow) : Prop :=
  Store.es_search_id after = Store.es_search_id before
  ∧ Store.es_expert_id after = Store.es_expert_id before
  ∧ Store.es_rank_position after = Store.es_rank_position before
  ∧ (Store.es_clicked before = true → Store.es_clicked after = true).

Definition store_grows (before after : Store.Tables) : Prop :=
  extends eq (Store.query_history_ai before) (Store.query_history_ai after)
  ∧ extends search_log_grows (Store.search_logs before) (Store.search_logs after)
  ∧ extends expert_search_grows (Store.expert_searches before)
            (Store.expert_searches after)
  ∧ extends session_grows (Store.search_sessions before) (Store.search_sessions after).

(** Every session has at most as many successful searches as queries, and
    every attribution is clicked exactly when it carries a click time. *)
Definition counters_bounded (t : Store.Tables) : Prop :=
  Forall (λ r, 0 ≤ Store.ss_successful_searches r ≤ Store.ss_query_count r)
         (Store.search_sessions t).

Definition clicks_stamped (t : Store.Tables) : Prop :=
  Forall (λ r, Store.es_clicked r = true ↔ is_Some (Store.es_click_timestamp r))
         (Store.expert_searches t).

(** The statements the methods issue: the increment of
    [successful_searches] is 0 or 1. *)
Definition issued (q : Store.statement) : Prop :=
  match q with
  | Store.UpdateSearchSession successful _ => 0 ≤ successful ≤ 1
  | _ => True
  end.

(** [m] started with no open transaction ends with none, and takes the
    committed tables to tables related to them by [R]. *)
Definition keeps (R : Store.Tables → Store.Tables → Prop) {A} (m : M A) : Prop :=
  ∀ w, quiescent w →
       quiescent (m w).2 ∧ R (committed (conn w)) (committed (conn (m w).2)).

End Requests.

(** ** More concrete inputs *)

Module Catalogs.
Import TitleSearch.

Definition neural_items : list (Z * gmap string string) :=
  [ (0, Examples.chunk "Neural networks" "AI");
    (1, Examples.chunk "Malaria vectors" "Health");
    (2, Examples.chunk "Deep NEURAL nets" "AI");
    (3, Examples.chunk "neural" "AI");
    (4, Examples.chunk "Urban growth" "Population") ].

(** The same catalog with a chunk that has no ['Title'] at the end. *)
Definition untitled_items : list (Z * gmap string string) :=
  neural_items ++ [ (5, {[ "Domain" := "AI" ]}) ].

Definition neural_engine : SearchEngine.t := {|
  SearchEngine.get_embedding := SearchEngine.get_embedding Examples.corpus2;
  SearchEngine.index_search := SearchEngine.index_search Examples.corpus2;
  SearchEngine.chunk_mapping := list_to_map neural_items;
  SearchEngine.find_experts_by_domain :=
    SearchEngine.find_experts_by_domain Examples.corpus2
|}.

End Catalogs.

(** ** The reply of an exhaustive index *)

Module FlatIndex.
Import SearchEngine.

(** A flat index compares the query with every vector of the corpus:
    [ranking] lists the ordinals [0 .. ntotal-1], each once, by distance. *)
Definition ranks (ntotal : nat) (ranking : list Z) : Prop :=
  ranking ≡ₚ seqZ 0 (Z.of_nat ntotal).

(** Its reply to a request for [k] neighbours holds the first [k] ordinals
    of the ranking, with as many distances. *)
Definition top_k (k : Z) (ranking : list Z) (D0 : list Q) (I0 : list Z) : Prop :=
  I0 = take (Z.to_nat k) ranking ∧ length D0 = length I0.

(** The entry [r] carries the first 3 experts that the attributor returns
    for the value stored under the key ['Domain'] of the entry's chunk, or
    for a single space when the chunk has no such key. *)
Definition attributed (se : SearchEngine.t) (r : SearchResult) : Prop :=
  ∃ found,
    find_experts_by_domain se
      (match metadata r !! "Domain" with
       | Some domain => domain
       | None => " "
       end) = Ok found
    ∧ experts r = take 3 found.

(** The corpus of two chunks behind an index that refuses a request for
    no neighbours or for a negative number of them, as the FAISS wrapper
    does with [assert k > 0]. *)
Definition strict_corpus2 : SearchEngine.t := {|
  get_embedding := get_embedding Examples.corpus2;
  index_search := λ query_vector k,
    if decide (0 < k) then index_search Examples.corpus2 query_vector k
    else Raise (ExternalError "AssertionError");
  chunk_mapping := chunk_mapping Examples.corpus2;
  find_experts_by_domain := find_experts_by_domain Examples.corpus2
|}.

End FlatIndex.

(** * Properties *)

(** ** [SearchEngine.search] *)

Section search_facts.
Import SearchEngine.
Context (se : SearchEngine.t).

Lemma search_loop_app pairs1 pairs2 results :
  search_loop se (pairs1 ++ pairs2) results
  = search_loop se pairs1 results ≫= search_loop se pairs2.
Proof.
  revert results. induction pairs1 as [|[idx score] pairs1 IH]; intros results; [done|].
  simpl. destruct (chunk_mapping se !! idx) as [md|]; [|done].
  destruct (find_experts_by_domain se (domain_of md)) as [found|e]; [|done].
  simpl. apply IH.
Qed.

(** Whatever list the loop returns extends [results] by one entry per pair,
    in order: nothing is skipped. *)
Lemma search_loop_inv pairs results out :
  search_loop se pairs results = Ok out →
  ∃ new, out = results ++ new ∧ Forall2 (built_from se) new pairs.
Proof.
  revert results. induction pairs as [|[idx score] pairs IH]; intros results; simpl.
  - intros [= <-]. exists []. by rewrite app_nil_r.
  - destruct (chunk_mapping se !! idx) as [md|] eqn:Hmd; [|done].
    destruct (find_experts_by_domain se (domain_of md)) as [found|e] eqn:Hf; [|done].
    simpl. intros (new & -> & Hnew)%IH.
    eexists (_ :: new). rewrite <- app_assoc. split; [done|].
    constructor; [|done]. split_and!; simpl; eauto.
Qed.

Lemma search_loop_ok pairs results :
  attributor_total se →
  Forall (λ hit, is_Some (chunk_mapping se !! hit.1)) pairs →
  ∃ out, search_loop se pairs results = Ok out.
Proof.
  intros Htot. revert results.
  induction pairs as [|[idx score] pairs IH]; intros results Hin; simpl; [eauto|].
  apply Forall_cons in Hin as [[md Hmd] Hin]. simpl in Hmd. rewrite Hmd.
  destruct (Htot (domain_of md)) as [found ->]. simpl. by apply IH.
Qed.

Lemma synchronized_lookup ntotal idx :
  catalog_synchronized se ntotal →
  is_Some (chunk_mapping se !! idx) ↔ 0 ≤ idx < Z.of_nat ntotal.
Proof.
  unfold catalog_synchronized. intros Hdom.
  rewrite <- elem_of_dom, Hdom, elem_of_list_to_set, elem_of_seqZ. lia.
Qed.

Lemma zip_fst_in {A B} (l : list A) (k : list B) (P : A → Prop) :
  Forall P l → Forall (λ p, P p.1) (zip l k).
Proof.
  intros Hl. revert k. induction Hl as [|x l Hx Hl IH]; intros [|y k]; simpl;
    constructor; auto.
Qed.

End search_facts.

Section search_claims.
Import SearchEngine.

Lemma Forall2_zip_fst {A B C} (P : A → B → Prop) (xs : list A) (l : list B) (k : list C) :
  length l = length k →
  Forall2 (λ x p, P x p.1) xs (zip l k) → Forall2 P xs l.
Proof.
  intros Hlen H. rewrite <- (fst_zip l k) by lia. by apply Forall2_fmap_r.
Qed.

Lemma ranking_top_k (ntotal : nat) (k : Z) (ranking : list Z) :
  FlatIndex.ranks ntotal ranking →
  0 ≤ k ≤ Z.of_nat ntotal →
  Z.of_nat (length (take (Z.to_nat k) ranking)) = k
  ∧ NoDup (take (Z.to_nat k) ranking)
  ∧ Forall (λ i, 0 ≤ i < Z.of_nat ntotal) (take (Z.to_nat k) ranking).
Proof.
  unfold FlatIndex.ranks. intros Hranks Hk.
  assert (length ranking = ntotal) as Hlen.
  { rewrite (Permutation_length Hranks), length_seqZ. lia. }
  split_and!.
  - rewrite length_take_le by lia. lia.
  - eapply sublist_NoDup; [|apply sublist_take]. rewrite Hranks. apply NoDup_seqZ.
  - apply Forall_forall. intros i Hi.
    eapply elem_of_sublist in Hi; [|apply sublist_take].
    rewrite Hranks, elem_of_seqZ in Hi. lia.
Qed.

(** C3 (amended): for every k with 0 < k ≤ corpus size, over a synchronised
    catalog behind a flat index, with the encoder and the attributor
    answering, [search query k] returns exactly [k] entries; they are built
    one by one, in the order of the reply, from the ordinals [I0] that the
    index returned, which are pairwise distinct (the first [k] of a ranking
    of the corpus), so no chunk identifier comes twice; each entry holds the
    chunk stored under its ordinal, the distance of its slot, and the first
    3 experts, hence at most 3, that the attributor returns for the value
    under the chunk's ['Domain'] key (a single space when there is none). *)
Theorem search_within_corpus (se : SearchEngine.t) (ntotal : nat) (query : string)
    (k : Z) (query_vector D0 : list Q) (I0 ranking : list Z) :
  catalog_synchronized se ntotal →
  attributor_total se →
  get_embedding se query = Ok query_vector →
  index_search se query_vector k = Ok (D0, I0) →
  FlatIndex.ranks ntotal ranking →
  FlatIndex.top_k k ranking D0 I0 →
  0 < k ≤ Z.of_nat ntotal →
  ∃ results,
    search se query k = Ok results
    ∧ Z.of_nat (length results) = k
    ∧ NoDup I0
    ∧ Forall2 (λ r idx, chunk_mapping se !! idx = Some (metadata r)) results I0
    ∧ Forall2 (λ r score, similarity_score r = score) results D0
    ∧ Forall (FlatIndex.attributed se) results
    ∧ Forall (λ r, (length (experts r) ≤ 3)%nat) results
    ∧ Forall2 (built_from se) results (zip I0 D0).
Proof.
  intros Hsync Htot Hemb Hidx Hranks [-> Hlen] Hk.
  destruct (ranking_top_k ntotal k ranking Hranks) as (Hlength & Hnodup & Hrange); [lia|].
  set (I0 := take (Z.to_nat k) ranking) in *.
  assert (Forall (λ hit : Z * Q, is_Some (chunk_mapping se !! hit.1)) (zip I0 D0)) as Hin.
  { apply (zip_fst_in I0 D0 (λ idx, is_Some (chunk_mapping se !! idx))).
    eapply Forall_impl; [exact Hrange|].
    intros idx Hidx'. by apply (synchronized_lookup se ntotal). }
  destruct (search_loop_ok se _ [] Htot Hin) as [results Hres].
  destruct (search_loop_inv se _ _ _ Hres) as (new & -> & Hbuilt). simpl in *.
  exists new. split_and!.
  - unfold search. rewrite Hemb. simpl. rewrite Hidx. simpl. exact Hres.
  - apply Forall2_length in Hbuilt. rewrite Hbuilt, length_zip_with. lia.
  - done.
  - apply (Forall2_zip_fst _ _ _ D0); [done|].
    eapply Forall2_impl; [exact Hbuilt|]. intros r hit (? & _). assumption.
  - rewrite <- (snd_zip I0 D0) by lia. apply Forall2_fmap_r.
    eapply Forall2_impl; [exact Hbuilt|]. intros r hit (_ & ? & _). assumption.
  - clear -Hbuilt. induction Hbuilt as [|r hit ? ? (_ & _ & found & Hfound & Hr) _ IH];
      constructor; [|done].
    exists found. split; [|done]. unfold domain_of in Hfound.
    by destruct (metadata r !! "Domain").
  - clear -Hbuilt. induction Hbuilt as [|r hit ? ? (_ & _ & found & _ & Hr) _ IH];
      constructor; [|done].
    rewrite Hr, length_take. lia.
  - done.
Qed.

(** On the corpus of two chunks: the chunk ranked first is the one of
    domain Population, and its experts are the attributor's first three
    for that domain. *)
Lemma search_within_corpus_witness :
  ∃ results,
    search Examples.corpus2 "malaria" 2 = Ok results
    ∧ results
      = [ {| metadata := Examples.chunk "Urban growth" "Population";
             similarity_score := (1 # 4)%Q;
             experts := [ {| expert_id := "e1"; expert_name := "Population" |};
                          {| expert_id := "e2"; expert_name := "Population" |};
                          {| expert_id := "e3"; expert_name := "Population" |} ] |};
          {| metadata := Examples.chunk "Malaria vectors" "Health";
             similarity_score := (3 # 4)%Q;
             experts := [ {| expert_id := "e1"; expert_name := "Health" |};
                          {| expert_id := "e2"; expert_name := "Health" |};
                          {| expert_id := "e3"; expert_name := "Health" |} ] |} ]
    ∧ Z.of_nat (length results) = 2
    ∧ NoDup [1; 0]
    ∧ Forall (FlatIndex.attributed Examples.corpus2) results.
Proof.
  destruct (search_within_corpus Examples.corpus2 2 "malaria" 2
              [1 # 2; 1 # 3]%Q [1 # 4; 3 # 4]%Q [1; 0] [1; 0])
    as (results & Hsearch & Hlength & Hnodup & _ & _ & Hattributed & _).
  - vm_compute. reflexivity.
  - intros domain. eexists. reflexivity.
  - reflexivity.
  - reflexivity.
  - unfold FlatIndex.ranks. simpl. apply perm_swap.
  - split; reflexivity.
  - lia.
  - exists results. split_and!; [done| |done..].
    vm_compute in Hsearch. injection Hsearch as <-. vm_compute. reflexivity.
Defined.

(** C3 as stated fails for k ≤ 0, which is at most the corpus size: no
    list has a negative number of entries, whatever the index does with a
    negative k, and an index that refuses k ≤ 0 makes the call raise for
    k = 0 too. *)
Lemma search_nonpositive_k :
  -1 ≤ Z.of_nat 2
  ∧ catalog_synchronized Examples.corpus2 2
  ∧ search Examples.corpus2 "malaria" (-1) = Ok []
  ∧ search FlatIndex.strict_corpus2 "malaria" (-1)
    = Raise (ExternalError "AssertionError")
  ∧ search FlatIndex.strict_corpus2 "malaria" 0
    = Raise (ExternalError "AssertionError")
  ∧ (∀ (se : SearchEngine.t) query results,
       search se query (-1) = Ok results → Z.of_nat (length results) ≠ -1)
  ∧ ¬ (∃ results, search Examples.corpus2 "malaria" (-1) = Ok results
                  ∧ Z.of_nat (length results) = -1)
  ∧ ¬ (∃ results, search FlatIndex.strict_corpus2 "malaria" 0 = Ok results
                  ∧ Z.of_nat (length results) = 0).
Proof.
  split_and!.
  - lia.
  - vm_compute. reflexivity.
  - vm_compute. reflexivity.
  - vm_compute. reflexivity.
  - vm_compute. reflexivity.
  - intros se query results _. lia.
  - intros (results & _ & Hlength). lia.
  - intros (results & Hsearch & _). vm_compute in Hsearch. discriminate.
Qed.

(** Whenever [search] returns a list, it holds one entry for every slot of
    the index's reply: no slot is dropped. *)
Lemma search_returns_every_slot (se : SearchEngine.t) (query : string) (k : Z)
    (results : list SearchResult) :
  search se query k = Ok results →
  ∃ query_vector D0 I0,
    get_embedding se query = Ok query_vector
    ∧ index_search se query_vector k = Ok (D0, I0)
    ∧ Forall2 (built_from se) results (zip I0 D0).
Proof.
  unfold search. destruct (get_embedding se query) as [v|] eqn:Hv; [|done]. simpl.
  destruct (index_search se v k) as [[D0 I0]|] eqn:Hi; [|done]. simpl.
  intros (new & -> & Hnew)%search_loop_inv. by exists v, D0, I0.
Qed.

(** C1 (amended): for k greater than the corpus size, [search] does not
    filter the sentinel ordinal -1 out of the index's reply: it looks it up
    in [chunk_mapping] like any other ordinal, the lookup fails, and the
    call raises [KeyError(-1)] instead of returning a shorter list. *)
Theorem search_beyond_corpus (se : SearchEngine.t) (ntotal : nat) (query : string)
    (k : Z) (query_vector D0 : list Q) (I0 : list Z) :
  catalog_synchronized se ntotal →
  attributor_total se →
  get_embedding se query = Ok query_vector →
  index_search se query_vector k = Ok (D0, I0) →
  index_reply_ok ntotal k D0 I0 →
  Z.of_nat ntotal < k →
  search se query k = Raise (KeyError sentinel).
Proof.
  intros Hsync Htot Hemb Hidx (Hk & Hlen & _ & Hrange & Hpad) Hlt.
  unfold search. rewrite Hemb. simpl. rewrite Hidx. simpl.
  rewrite <- (take_drop ntotal I0), <- (take_drop ntotal D0).
  rewrite zip_with_app by (rewrite !length_take; lia).
  rewrite search_loop_app.
  assert (Forall (λ hit : Z * Q, is_Some (chunk_mapping se !! hit.1))
            (zip (take ntotal I0) (take ntotal D0))) as Hin.
  { apply (zip_fst_in _ _ (λ idx, is_Some (chunk_mapping se !! idx))).
    eapply Forall_impl; [exact Hrange|].
    intros idx Hidx'. by apply (synchronized_lookup se ntotal). }
  destruct (search_loop_ok se _ [] Htot Hin) as [out ->]. simpl.
  destruct (drop ntotal I0) as [|idx I1] eqn:HI.
  { apply (f_equal length) in HI. rewrite length_drop in HI. simpl in HI. lia. }
  destruct (drop ntotal D0) as [|score D1] eqn:HD.
  { apply (f_equal length) in HD. rewrite length_drop in HD. simpl in HD. lia. }
  apply Forall_cons in Hpad as [-> _]. simpl.
  destruct (chunk_mapping se !! sentinel) as [md|] eqn:Hmd; [|done].
  assert (is_Some (chunk_mapping se !! sentinel)) as Hs by eauto.
  apply (synchronized_lookup se ntotal) in Hs; [|done]. unfold sentinel in Hs. lia.
Qed.

Lemma search_beyond_corpus_witness :
  search Examples.corpus2 "malaria" 3 = Raise (KeyError sentinel).
Proof.
  apply (search_beyond_corpus Examples.corpus2 2 "malaria" 3
           [1 # 2; 1 # 3]%Q [1 # 4; 3 # 4; 1000 # 1]%Q [1; 0; -1]).
  - vm_compute. reflexivity.
  - intros domain. eexists. reflexivity.
  - reflexivity.
  - reflexivity.
  - apply (bool_decide_unpack _). vm_compute. exact I.
  - lia.
Defined.

(** C1 as stated fails: on a corpus of two chunks and k = 3 the index's
    reply ends with the sentinel, and the call raises instead of returning
    fewer than 3 entries. *)
Lemma search_sentinel_not_excluded :
  catalog_synchronized Examples.corpus2 2
  ∧ index_search Examples.corpus2 [1 # 2; 1 # 3]%Q 3
    = Ok ([1 # 4; 3 # 4; 1000 # 1]%Q, [1; 0; sentinel])
  ∧ search Examples.corpus2 "malaria" 3 = Raise (KeyError (-1))
  ∧ ¬ ∃ results, search Examples.corpus2 "malaria" 3 = Ok results
                 ∧ (length results < 3)%nat.
Proof.
  split_and!.
  - vm_compute. reflexivity.
  - reflexivity.
  - vm_compute. reflexivity.
  - intros (results & Hres & _). vm_compute in Hres. discriminate.
Qed.

End search_claims.

(** ** Stepping through effectful code *)

Section monad_facts.
Context {A B : Type}.

Lemma M_bind_ok (m : M A) (f : A → M B) (w w' : World) (a : A) :
  m w = (Ok a, w') → (m ≫= f) w = f a w'.
Proof. unfold mbind, M_bind. by intros ->. Qed.

Lemma M_bind_raise (m : M A) (f : A → M B) (w w' : World) (e : exn) :
  m w = (Raise e, w') → (m ≫= f) w = (Raise e, w').
Proof. unfold mbind, M_bind. by intros ->. Qed.

Lemma try_except_ok (body : M A) (handler : exn → M A) (w w' : World) (a : A) :
  body w = (Ok a, w') → try_except body handler w = (Ok a, w').
Proof. unfold try_except. by intros ->. Qed.

Lemma try_except_raise (body : M A) (handler : exn → M A) (w w' : World) (e : exn) :
  body w = (Raise e, w') → try_except body handler w = handler e w'.
Proof. unfold try_except. by intros ->. Qed.

End monad_facts.

(** ** The [/predict] route *)

Section predict_facts.
Import Endpoints PredictSpec.

Lemma first_seen_app seen preds1 preds2 :
  first_seen seen (preds1 ++ preds2)
  = first_seen seen preds1 ++ first_seen (seen ∪ seen_of preds1) preds2.
Proof.
  revert seen. induction preds1 as [|pred preds1 IH]; intros seen; simpl.
  - f_equal. unfold seen_of. simpl. set_solver.
  - case_decide.
    + rewrite IH. do 2 f_equal. unfold seen_of. simpl. set_solver.
    + simpl. rewrite IH. do 3 f_equal. unfold seen_of. simpl. set_solver.
Qed.

Lemma add_db_predictions_spec preds all_predictions seen :
  add_db_predictions preds all_predictions seen
  = (all_predictions ++ first_seen seen preds, seen ∪ seen_of preds).
Proof.
  revert all_predictions seen.
  induction preds as [|pred preds IH]; intros all_predictions seen; simpl.
  - rewrite app_nil_r. f_equal. unfold seen_of. simpl. set_solver.
  - case_decide; case_decide; try done.
    + rewrite IH, <- app_assoc. f_equal. unfold seen_of. simpl. set_solver.
    + rewrite IH. f_equal. unfold seen_of. simpl. set_solver.
Qed.

Lemma add_search_predictions_full limit preds all_predictions seen :
  limit ≤ Z.of_nat (length all_predictions) →
  add_search_predictions limit preds all_predictions seen = (all_predictions, seen).
Proof.
  intros Hfull. induction preds as [|pred preds IH]; simpl; [done|].
  case_decide; [lia|done].
Qed.

Lemma add_search_predictions_spec limit preds all_predictions seen :
  (add_search_predictions limit preds all_predictions seen).1
  = all_predictions
    ++ take (Z.to_nat (limit - Z.of_nat (length all_predictions))) (first_seen seen preds).
Proof.
  revert all_predictions seen.
  induction preds as [|pred preds IH]; intros all_predictions seen; simpl.
  - by rewrite take_nil, app_nil_r.
  - case_decide as Hadd.
    + destruct Hadd as [Hnew Hroom]. rewrite decide_False by done.
      rewrite IH, <- app_assoc, length_app. simpl. f_equal.
      replace (Z.to_nat (limit - Z.of_nat (length all_predictions)))
        with (S (Z.to_nat (limit - Z.of_nat (length all_predictions + 1)))) by lia.
      done.
    + destruct (decide (lower pred ∈ seen)) as [Hseen|Hnew]; [apply IH|].
      assert (limit ≤ Z.of_nat (length all_predictions)) as Hfull.
      { destruct (decide (limit ≤ Z.of_nat (length all_predictions))); [done|].
        exfalso. apply Hadd. split; [done|lia]. }
      rewrite add_search_predictions_full by done. simpl.
      replace (Z.to_nat (limit - Z.of_nat (length all_predictions))) with 0%nat by lia.
      by rewrite app_nil_r.
Qed.

Lemma combine_predictions_spec db_predictions search_predictions limit :
  combine_predictions db_predictions search_predictions limit
  = first_seen ∅ db_predictions
    ++ take (Z.to_nat (limit - Z.of_nat (length (first_seen ∅ db_predictions))))
            (first_seen (seen_of db_predictions) search_predictions).
Proof.
  unfold combine_predictions. rewrite add_db_predictions_spec. simpl.
  rewrite add_search_predictions_spec. do 3 f_equal. set_solver.
Qed.

End predict_facts.

Section predict_claims.
Import Endpoints PredictSpec.

Lemma slice_to_nonneg {A} (xs : list A) (stop : Z) :
  0 ≤ stop → slice_to xs stop = take (Z.to_nat stop) xs.
Proof. intros H. unfold slice_to. case_match; [done|lia]. Qed.

Lemma first_seen_sublist seen preds : first_seen seen preds `sublist_of` preds.
Proof.
  revert seen. induction preds as [|pred preds IH]; intros seen; simpl; [done|].
  case_decide; [by apply sublist_cons|by apply sublist_skip].
Qed.

Lemma first_seen_fresh seen preds :
  Forall (λ pred, lower pred ∉ seen) (first_seen seen preds).
Proof.
  revert seen. induction preds as [|pred preds IH]; intros seen; simpl; [done|].
  case_decide; [done|]. constructor; [done|].
  eapply Forall_impl; [apply IH|]. set_solver.
Qed.

Lemma first_seen_NoDup seen preds : NoDup (lower <$> first_seen seen preds).
Proof.
  revert seen. induction preds as [|pred preds IH]; intros seen; simpl; [constructor|].
  case_decide; [done|]. rewrite fmap_cons. constructor; [|done].
  intros (other & Heq & Hin)%list_elem_of_fmap.
  pose proof (first_seen_fresh (seen ∪ {[lower pred]}) preds) as Hfresh.
  rewrite Forall_forall in Hfresh. specialize (Hfresh _ Hin). set_solver.
Qed.

(** Every kept prediction is the first of its lower-cased form in the
    input, with its own casing. *)
Lemma first_seen_first_occurrence preds pred :
  pred ∈ first_seen ∅ preds →
  ∃ before after, preds = before ++ pred :: after
                  ∧ (lower pred ∉ (lower <$> before)).
Proof.
  assert (∀ seen, pred ∈ first_seen seen preds →
            ∃ before after, preds = before ++ pred :: after
                            ∧ (lower pred ∉ seen)
                            ∧ (lower pred ∉ (lower <$> before))) as H.
  { induction preds as [|p preds IH]; intros seen; simpl; [by intros ?%elem_of_nil|].
    case_decide as Hp.
    - intros (before & after & -> & Hs & Hb)%IH.
      exists (p :: before), after. split_and!; [done..|].
      rewrite fmap_cons, not_elem_of_cons. split; [|done]. congruence.
    - intros [->|Hin]%elem_of_cons.
      + exists [], preds. split_and!; [done..|]. simpl. apply not_elem_of_nil.
      + apply IH in Hin as (before & after & -> & Hs & Hb).
        exists (p :: before), after. split_and!; [done|set_solver|].
        rewrite fmap_cons, not_elem_of_cons. split; [set_solver|done]. }
  intros (before & after & ? & _ & ?)%H. eauto.
Qed.

(** C4 (amended): for every pair of lists and every limit that is not
    negative, the merge is the spec's: DB matches first in their returned
    order, then the engine predictions, a prediction being skipped when its
    lower-cased form was already seen and kept with its own casing
    otherwise; the engine loop never grows the list past [limit]; the
    returned list is cut to [limit], holds no two predictions with the same
    lower-cased form, and each of its predictions is the first variant of
    its form in the input.  On the spec's example the route returns the
    three expected predictions. *)
Theorem merge_predictions_spec (db_predictions search_predictions : list string)
    (limit : Z) :
  0 ≤ limit →
  merge_predictions db_predictions search_predictions limit
    = spec_merge db_predictions search_predictions limit
  ∧ first_seen ∅ (db_predictions ++ search_predictions)
    = first_seen ∅ db_predictions
      ++ first_seen (seen_of db_predictions) search_predictions
  ∧ Z.of_nat (length (combine_predictions db_predictions search_predictions limit))
    ≤ Z.max limit (Z.of_nat (length (first_seen ∅ db_predictions)))
  ∧ Z.of_nat (length (merge_predictions db_predictions search_predictions limit)) ≤ limit
  ∧ NoDup (lower <$> merge_predictions db_predictions search_predictions limit)
  ∧ (∀ pred, pred ∈ merge_predictions db_predictions search_predictions limit →
       ∃ before after,
         db_predictions ++ search_predictions = before ++ pred :: after
         ∧ (lower pred ∉ (lower <$> before)))
  ∧ fst (predict_queries
           (Examples.db_source (Ok ["machine learning"; "machine vision"]))
           (Examples.engine_source (Ok ["Machine Learning Basics"; "machine vision"]))
           "machine" 5 Examples.fresh_world)
    = Ok ["machine learning"; "machine vision"; "Machine Learning Basics"].
Proof.
  intros Hlimit.
  assert (first_seen ∅ (db_predictions ++ search_predictions)
          = first_seen ∅ db_predictions
            ++ first_seen (seen_of db_predictions) search_predictions) as Happ.
  { rewrite first_seen_app. do 2 f_equal. set_solver. }
  assert (merge_predictions db_predictions search_predictions limit
          = spec_merge db_predictions search_predictions limit) as Hmerge.
  { unfold merge_predictions, spec_merge.
    rewrite slice_to_nonneg, combine_predictions_spec, Happ by done.
    rewrite !take_app, take_take. do 2 f_equal. lia. }
  split_and!; try done.
  - rewrite combine_predictions_spec, length_app, length_take. lia.
  - rewrite Hmerge. unfold spec_merge. rewrite length_take. lia.
  - rewrite Hmerge. unfold spec_merge. rewrite fmap_take.
    eapply sublist_NoDup; [apply first_seen_NoDup|apply sublist_take].
  - intros pred Hin. apply first_seen_first_occurrence.
    rewrite Hmerge in Hin. unfold spec_merge in Hin.
    apply elem_of_take in Hin as (i & Hi & _). by eapply list_elem_of_lookup_2.
Qed.

Lemma merge_predictions_spec_witness :
  0 ≤ 5
  ∧ merge_predictions ["machine learning"; "machine vision"]
                      ["Machine Learning Basics"; "machine vision"] 5
    = spec_merge ["machine learning"; "machine vision"]
                 ["Machine Learning Basics"; "machine vision"] 5
  ∧ spec_merge ["machine learning"; "machine vision"]
               ["Machine Learning Basics"; "machine vision"] 5
    = ["machine learning"; "machine vision"; "Machine Learning Basics"].
Proof.
  split_and!; [lia| |vm_compute; reflexivity].
  apply (merge_predictions_spec ["machine learning"; "machine vision"]
           ["Machine Learning Basics"; "machine vision"] 5). lia.
Defined.

(** The two merges agree when no two DB matches share a lower-cased form. *)
Lemma first_seen_distinct seen preds :
  NoDup (lower <$> preds) →
  Forall (λ pred, lower pred ∉ seen) preds →
  first_seen seen preds = preds.
Proof.
  revert seen. induction preds as [|pred preds IH]; intros seen; simpl; [done|].
  rewrite NoDup_cons. intros [Hpred Hrest] [Hseen Hfresh]%Forall_cons.
  rewrite decide_False by done. f_equal. apply IH; [done|].
  rewrite Forall_forall in Hfresh |- *. intros other Hother.
  specialize (Hfresh _ Hother).
  assert (lower other ≠ lower pred).
  { intros Heq. apply Hpred. rewrite <- Heq. by apply list_elem_of_fmap_2. }
  set_solver.
Qed.

Lemma spec_merge_distinct db_predictions search_predictions limit :
  NoDup (lower <$> db_predictions) →
  spec_merge db_predictions search_predictions limit
  = claimed_merge db_predictions search_predictions limit.
Proof.
  intros Hdistinct. unfold spec_merge, claimed_merge.
  rewrite first_seen_app, first_seen_distinct; [|done|].
  - do 3 f_equal. set_solver.
  - apply Forall_forall. set_solver.
Qed.

(** C4 as stated fails in two ways.  For a negative limit
    [all_predictions[:-1]] drops the last entry instead of cutting the list
    to the limit; and a DB match is skipped, like an engine prediction,
    when an earlier DB match has the same lower-cased form. *)
Lemma merge_not_as_claimed :
  fst (predict_queries (Examples.db_source (Ok ["ab"; "cd"]))
         (Examples.engine_source (Ok [])) "ab" (-1) Examples.fresh_world)
  = Ok ["ab"]
  ∧ merge_predictions ["ab"; "cd"] [] (-1) = ["ab"]
  ∧ claimed_merge ["ab"; "cd"] [] (-1) = []
  ∧ ¬ (Z.of_nat (length (merge_predictions ["ab"; "cd"] [] (-1))) ≤ -1)
  ∧ merge_predictions ["Malaria"; "malaria"] [] 5 = ["Malaria"]
  ∧ claimed_merge ["Malaria"; "malaria"] [] 5 = ["Malaria"; "malaria"]
  ∧ ¬ (∀ db_predictions search_predictions limit,
         merge_predictions db_predictions search_predictions limit
         = claimed_merge db_predictions search_predictions limit).
Proof.
  split_and!; try (vm_compute; reflexivity).
  - intros H. vm_compute in H. by apply H.
  - intros H. specialize (H ["ab"; "cd"] [] (-1)). vm_compute in H. discriminate.
Qed.

(** C5: for a partial query shorter than 2 characters the route returns
    the empty list without raising, whatever the limit and the two sources
    are; the only effect is the log record of the request: the trace of
    calls to the prediction sources and the connection are untouched. *)
Theorem predict_short_query (db_manager search_engine : PyObject)
    (partial_query : string) (limit : Z) (w : World) :
  (String.length partial_query < 2)%nat →
  predict_queries db_manager search_engine partial_query limit w
  = (Ok [], {| conn := conn w;
               log := log w ++ [(INFO, ReceivedPrediction partial_query)];
               calls := calls w |}).
Proof.
  intros Hshort. unfold predict_queries, try_except, mbind, M_bind, logger. simpl.
  by rewrite decide_True.
Qed.

Lemma predict_short_query_witness :
  (String.length "x" < 2)%nat
  ∧ predict_queries DatabaseManager_object SearchEngine_object "x" 5
      Examples.fresh_world
    = (Ok [], {| conn := Examples.no_conn;
                 log := [(INFO, ReceivedPrediction "x")];
                 calls := [] |}).
Proof.
  split; [simpl; lia|].
  apply (predict_short_query DatabaseManager_object SearchEngine_object "x" 5
           Examples.fresh_world).
  simpl. lia.
Defined.

(** C2: [DatabaseManager] defines no [get_matching_queries] (and
    [SearchEngine] no [predict_queries]).  For a partial query of at least 2
    characters the required fetch therefore raises [AttributeError], which
    the route turns into an HTTP 500; neither source is called and the
    merge is never reached (no prediction list is logged or returned).  A
    call of [predict_queries] on the engine raises [AttributeError] too. *)
Theorem predict_fetch_undefined (search_engine : PyObject) (partial_query : string)
    (limit : Z) (w : World) :
  (2 ≤ String.length partial_query)%nat →
  ("get_matching_queries" ∉ attributes DatabaseManager_object)
  ∧ ("predict_queries" ∉ attributes SearchEngine_object)
  ∧ predict_queries DatabaseManager_object search_engine partial_query limit w
    = (Raise (HTTPException 500
                "'DatabaseManager' object has no attribute 'get_matching_queries'"),
       {| conn := conn w;
          log := log w ++
            [(INFO, ReceivedPrediction partial_query);
             (ERROR, PredictionError
                       (AttributeError "DatabaseManager" "get_matching_queries"))];
          calls := calls w |})
  ∧ call_method SearchEngine_object "predict_queries" partial_query limit w
    = (Raise (AttributeError "SearchEngine" "predict_queries"), w).
Proof.
  intros Hlong.
  assert ("get_matching_queries" ∉ attributes DatabaseManager_object) as Hdb.
  { apply (bool_decide_unpack _). vm_compute. exact I. }
  assert ("predict_queries" ∉ attributes SearchEngine_object) as Hse.
  { apply (bool_decide_unpack _). vm_compute. exact I. }
  split_and!; [done..| |].
  - unfold predict_queries, try_except, mbind, M_bind, logger. simpl.
    destruct (decide _) as [|_]; [lia|].
    unfold raise. simpl. by rewrite <- app_assoc.
  - unfold call_method. by rewrite decide_False by done.
Qed.

Lemma predict_fetch_undefined_witness :
  (2 ≤ String.length "machine")%nat
  ∧ fst (predict_queries DatabaseManager_object SearchEngine_object "machine" 5
           Examples.fresh_world)
    = Raise (HTTPException 500
               "'DatabaseManager' object has no attribute 'get_matching_queries'").
Proof.
  split; [simpl; lia|].
  destruct (predict_fetch_undefined SearchEngine_object "machine" 5
              Examples.fresh_world) as (_ & _ & -> & _); [simpl; lia|].
  reflexivity.
Defined.


Lemma slice_to_elem_of {A} (xs : list A) (stop : Z) (x : A) :
  x ∈ slice_to xs stop → x ∈ xs.
Proof.
  unfold slice_to. case_match; intros (i & Hi & _)%elem_of_take;
    by eapply list_elem_of_lookup_2.
Qed.

(** C6: once the query has at least 2 characters, (1) an exception raised
    by the DB-side fetch aborts the route and reaches the caller as an HTTP
    500 carrying its text; (2) an exception raised by the engine-side fetch
    is caught and logged as a warning, the engine contributes the empty
    list, and the route returns the DB matches alone (merged with nothing,
    cut to the limit). *)
Theorem predict_source_failures (db_manager search_engine : PyObject)
    (partial_query : string) (limit : Z) (w : World) :
  (2 ≤ String.length partial_query)%nat →
  let w0 := snd (logger INFO (ReceivedPrediction partial_query) w) in
  (∀ e w1,
     call_method db_manager "get_matching_queries" partial_query limit w0
       = (Raise e, w1) →
     fst (predict_queries db_manager search_engine partial_query limit w)
       = Raise (HTTPException 500 (str_exn e)))
  ∧ (∀ db_predictions w1 e w2,
       call_method db_manager "get_matching_queries" partial_query limit w0
         = (Ok db_predictions, w1) →
       call_method search_engine "predict_queries" partial_query limit
           (snd (logger INFO (DBPredictions db_predictions) w1))
         = (Raise e, w2) →
       fst (predict_queries db_manager search_engine partial_query limit w)
         = Ok (merge_predictions db_predictions [] limit)
       ∧ merge_predictions db_predictions [] limit
         = slice_to (first_seen ∅ db_predictions) limit
       ∧ (∀ pred, pred ∈ merge_predictions db_predictions [] limit →
                  pred ∈ db_predictions)
       ∧ (WARNING, SearchEnginePredictionsFailed e)
         ∈ log (snd (predict_queries db_manager search_engine partial_query limit w))).
Proof.
  intros Hlong w0.
  assert (∀ k : unit → M (list string),
            (logger INFO (ReceivedPrediction partial_query) ≫= k) w = k () w0) as Hstart.
  { intros k. by apply M_bind_ok. }
  split.
  - intros e w1 Hdb. unfold predict_queries. rewrite Hstart.
    erewrite try_except_raise; [reflexivity|].
    rewrite decide_False by lia. by apply M_bind_raise.
  - intros db_predictions w1 e w2 Hdb Hse.
    assert (merge_predictions db_predictions [] limit
            = slice_to (first_seen ∅ db_predictions) limit) as Hmerge.
    { unfold merge_predictions. rewrite combine_predictions_spec. simpl.
      by rewrite take_nil, app_nil_r. }
    assert (predict_queries db_manager search_engine partial_query limit w
            = (Ok (merge_predictions db_predictions [] limit),
               snd ((logger WARNING (SearchEnginePredictionsFailed e);;
                     logger INFO (ReturningPredictions
                                    (combine_predictions db_predictions [] limit))) w2)))
      as Hrun.
    { unfold predict_queries. rewrite Hstart.
      erewrite try_except_ok; [reflexivity|].
      rewrite decide_False by lia.
      erewrite M_bind_ok by exact Hdb.
      erewrite M_bind_ok by reflexivity.
      erewrite M_bind_ok; [reflexivity|].
      erewrite try_except_raise; [reflexivity|].
      by apply M_bind_raise. }
    rewrite Hrun. split_and!; [done..| |].
    + intros pred Hin. rewrite Hmerge in Hin. apply slice_to_elem_of in Hin.
      eapply elem_of_sublist; [done|apply first_seen_sublist].
    + simpl. set_solver.
Qed.

Lemma predict_source_failures_witness :
  fst (predict_queries (Examples.db_source (Raise (DatabaseError "connection lost")))
         SearchEngine_object "machine" 5 Examples.fresh_world)
    = Raise (HTTPException 500 "connection lost")
  ∧ fst (predict_queries (Examples.db_source (Ok ["machine learning"; "machine vision"]))
           SearchEngine_object "machine" 5 Examples.fresh_world)
    = Ok ["machine learning"; "machine vision"].
Proof.
  split.
  - eapply (proj1 (predict_source_failures
                     (Examples.db_source (Raise (DatabaseError "connection lost")))
                     SearchEngine_object "machine" 5 Examples.fresh_world
                     ltac:(simpl; lia))
                  (DatabaseError "connection lost")).
    reflexivity.
  - eapply (proj1 (proj2 (predict_source_failures
                     (Examples.db_source (Ok ["machine learning"; "machine vision"]))
                     SearchEngine_object "machine" 5 Examples.fresh_world
                     ltac:(simpl; lia))
                   ["machine learning"; "machine vision"] _
                   (AttributeError "SearchEngine" "predict_queries") _
                   eq_refl eq_refl)).
Defined.

End predict_claims.

(** ** [DatabaseManager] *)

Section database_facts.
Import DatabaseManager.

(** A statement that the server accepts is executed on the open
    transaction and committed at once. *)
Lemma execute_ok (q : Store.statement) (w : World) (rest : list (option exn)) :
  faults (conn w) = [] ∨ faults (conn w) = None :: rest →
  execute q w
  = (Ok (default [] (Store.run q (clock (conn w)) (pending (conn w))).2),
     set_conn {| committed := (Store.run q (clock (conn w)) (pending (conn w))).1;
                 pending := (Store.run q (clock (conn w)) (pending (conn w))).1;
                 fetched := (Store.run q (clock (conn w)) (pending (conn w))).2;
                 clock := clock (conn w);
                 faults := tail (faults (conn w)) |} w).
Proof.
  intros Hf. unfold execute, try_except, mbind, M_bind, cur_execute.
  destruct (Store.run q (clock (conn w)) (pending (conn w))) as [t rows] eqn:Hrun.
  destruct Hf as [Hf|Hf]; rewrite Hf; reflexivity.
Qed.

(** A statement that the server rejects leaves the tables alone: the open
    transaction is rolled back, the failure is logged and raised again. *)
Lemma execute_fault (q : Store.statement) (w : World) (e : exn)
    (rest : list (option exn)) :
  faults (conn w) = Some e :: rest →
  execute q w
  = (Raise e,
     {| conn := {| committed := committed (conn w);
                   pending := committed (conn w);
                   fetched := fetched (conn w);
                   clock := clock (conn w);
                   faults := rest |};
        log := log w ++ [(ERROR, QueryExecutionFailed e q)];
        calls := calls w |}).
Proof.
  intros Hf. unfold execute, try_except, mbind, M_bind, cur_execute.
  rewrite Hf. reflexivity.
Qed.

End database_facts.

(** ** The [/] route *)

Section search_route.
Import Endpoints.

(** C7: the response of the search route is a function of the engine's
    answer alone.  Whatever [add_query] does (return an id, raise any
    exception, change the store), the caller gets the formatted results of
    [search_engine.search], and an error only when the engine itself
    raised; when [add_query] raises, the exception is caught and logged at
    level ERROR and the results are returned all the same. *)
Theorem search_ignores_add_query (search_engine : SearchEngine.t)
    (add_query : string → Z → string → option string → M (option Z))
    (query : string) (limit : Z) (w : World) :
  fst (search search_engine add_query query limit w)
  = match SearchEngine.search search_engine query limit with
    | Ok results => Ok (format_result <$> results)
    | Raise e => Raise (HTTPException 500 (str_exn e))
    end
  ∧ (∀ results db_error w1,
       SearchEngine.search search_engine query limit = Ok results →
       add_query query (Z.of_nat (length results)) "semantic" None
                 (snd (logger INFO (ReceivedSearch query limit) w))
         = (Raise db_error, w1) →
       search search_engine add_query query limit w
       = (Ok (format_result <$> results),
          {| conn := conn w1;
             log := log w1 ++ [(ERROR, FailedToStoreQuery db_error)];
             calls := calls w1 |})).
Proof.
  split.
  - unfold search, try_except, mbind, M_bind, lift, logger. simpl.
    destruct (SearchEngine.search search_engine query limit) as [results|e]; [|done].
    by destruct (add_query _ _ _ _ _) as [[query_id|db_error] w1].
  - intros results db_error w1 Hres Hadd.
    unfold search, try_except, mbind, M_bind, lift. simpl in *.
    rewrite Hres, Hadd. reflexivity.
Qed.

(** The same query, once with the store answering and once with the insert
    rejected by the server: the two responses are equal, and the rejection
    ends up in the log. *)
Lemma search_ignores_add_query_witness :
  fst (search Examples.corpus2 DatabaseManager.add_query "malaria" 2
         (with_faults [Some (DatabaseError "connection lost")] Examples.fresh_world))
  = fst (search Examples.corpus2 DatabaseManager.add_query "malaria" 2
           Examples.fresh_world)
  ∧ (ERROR, FailedToStoreQuery (DatabaseError "connection lost"))
    ∈ log (snd (search Examples.corpus2 DatabaseManager.add_query "malaria" 2
                  (with_faults [Some (DatabaseError "connection lost")]
                     Examples.fresh_world))).
Proof.
  split.
  - rewrite !(proj1 (search_ignores_add_query _ _ _ _ _)). reflexivity.
  - erewrite (proj2 (search_ignores_add_query Examples.corpus2
                       DatabaseManager.add_query "malaria" 2 _));
      [|vm_compute; reflexivity|vm_compute; reflexivity].
    simpl. set_solver.
Defined.

End search_route.

(** ** Clicks and sessions *)

Section click_claims.
Import DatabaseManager.

Lemma truthy_nonempty (expert_id : string) :
  expert_id ≠ EmptyString → truthy (Some expert_id) = true.
Proof.
  intros Hne. simpl. destruct (String.eqb_spec expert_id EmptyString); [done|reflexivity].
Qed.

(** A call of [record_click] with an expert id, when the server accepts
    both updates: both are committed. *)
Lemma record_click_ok (search_id : Z) (expert_id : string) (w : World) :
  expert_id ≠ EmptyString →
  faults (conn w) = [] →
  record_click search_id (Some expert_id) w
  = (Ok (),
     set_conn
       (let t := (Store.run (Store.UpdateExpertSearchClicked search_id expert_id)
                    (clock (conn w))
                    (Store.run (Store.UpdateSearchLogClicked search_id)
                       (clock (conn w)) (pending (conn w))).1).1 in
        {| committed := t; pending := t; fetched := None;
           clock := clock (conn w); faults := [] |}) w).
Proof.
  intros Hne Hf. unfold record_click.
  erewrite try_except_ok; [reflexivity|].
  erewrite M_bind_ok by (apply (execute_ok _ _ []); by left).
  rewrite truthy_nonempty by done.
  erewrite M_bind_ok; [reflexivity|].
  rewrite (execute_ok _ _ []) by (left; simpl; by rewrite Hf).
  simpl. by rewrite Hf.
Qed.

Lemma click_expert_search_clicked_at search_id expert_id now
    (rows : list Store.ExpertSearchRow) :
  Forall2 (Store.clicked_at search_id expert_id now) rows
          (Store.click_expert_search search_id expert_id now <$> rows).
Proof.
  apply Forall2_fmap_r, Forall_Forall2_diag, Forall_forall. intros r _.
  unfold Store.clicked_at, Store.click_expert_search.
  destruct (decide (Store.es_search_id r = search_id
                    ∧ Store.es_expert_id r = expert_id)) as [Hr|Hr]; simpl.
  - rewrite decide_True by done. done.
  - rewrite decide_False by done. done.
Qed.

Lemma click_expert_search_twice search_id expert_id t1 t2
    (rows : list Store.ExpertSearchRow) :
  Store.click_expert_search search_id expert_id t2
    <$> (Store.click_expert_search search_id expert_id t1 <$> rows)
  = Store.click_expert_search search_id expert_id t2 <$> rows.
Proof.
  rewrite <- list_fmap_compose. apply list_fmap_ext. intros i r _. simpl.
  unfold Store.click_expert_search.
  destruct (decide (Store.es_search_id r = search_id
                    ∧ Store.es_expert_id r = expert_id)) as [Hr|Hr]; simpl.
  - by rewrite decide_True.
  - by rewrite decide_False.
Qed.

(** C8 (amended): for every search id and every non-empty expert id, a
    call of [record_click] that the server accepts marks the attribution
    rows of that pair clicked and stamps them with the time of the call;
    after two calls in sequence the rows are clicked and carry the time of
    the second call, not of the first. *)
Theorem record_click_last_write_wins (search_id : Z) (expert_id : string)
    (t1 t2 : Z) (w : World) :
  expert_id ≠ EmptyString →
  faults (conn w) = [] →
  quiescent w →
  let r1 := record_click search_id (Some expert_id) (at_time t1 w) in
  let r2 := record_click search_id (Some expert_id) (at_time t2 (snd r1)) in
  fst r1 = Ok ()
  ∧ Forall2 (Store.clicked_at search_id expert_id t1)
      (Store.expert_searches (committed (conn w)))
      (Store.expert_searches (committed (conn (snd r1))))
  ∧ fst r2 = Ok ()
  ∧ Forall2 (Store.clicked_at search_id expert_id t2)
      (Store.expert_searches (committed (conn w)))
      (Store.expert_searches (committed (conn (snd r2)))).
Proof.
  intros Hne Hf Hq r1 r2. unfold quiescent in Hq.
  assert (r1 = record_click search_id (Some expert_id) (at_time t1 w)) as Hr1 by done.
  rewrite record_click_ok in Hr1 by done.
  assert (r2 = record_click search_id (Some expert_id) (at_time t2 r1.2)) as Hr2 by done.
  rewrite record_click_ok in Hr2 by (done || by rewrite Hr1).
  rewrite Hr2, Hr1. simpl. rewrite Hq. split_and!; [done| |done|].
  - apply click_expert_search_clicked_at.
  - rewrite click_expert_search_twice. apply click_expert_search_clicked_at.
Qed.

Lemma record_click_last_write_wins_witness :
  let r1 := record_click 1 (Some "e7") (at_time 10 Examples.seeded_world) in
  let r2 := record_click 1 (Some "e7") (at_time 20 (snd r1)) in
  Store.expert_searches (committed (conn Examples.seeded_world))
  = [ {| Store.es_search_id := 1; Store.es_expert_id := "e7";
         Store.es_rank_position := 0; Store.es_clicked := false;
         Store.es_click_timestamp := None |} ]
  ∧ Store.expert_searches (committed (conn (snd r2)))
    = [ {| Store.es_search_id := 1; Store.es_expert_id := "e7";
           Store.es_rank_position := 0; Store.es_clicked := true;
           Store.es_click_timestamp := Some 20 |} ]
  ∧ Forall2 (Store.clicked_at 1 "e7" 20)
      (Store.expert_searches (committed (conn Examples.seeded_world)))
      (Store.expert_searches (committed (conn (snd r2)))).
Proof.
  intros r1 r2. split_and!; [reflexivity|reflexivity|].
  apply (record_click_last_write_wins 1 "e7" 10 20 Examples.seeded_world);
    [discriminate|reflexivity|reflexivity].
Defined.

(** C8 as stated fails for the empty expert id: [if expert_id:] skips the
    attribution update, so the row recorded under that id stays unclicked
    although the call succeeds. *)
Lemma record_click_empty_expert_id :
  let r := record_click 1 (Some EmptyString) (at_time 10 Examples.anonymous_world) in
  fst r = Ok ()
  ∧ Store.expert_searches (committed (conn (snd r)))
    = [ {| Store.es_search_id := 1; Store.es_expert_id := "e7";
           Store.es_rank_position := 0; Store.es_clicked := false;
           Store.es_click_timestamp := None |};
        {| Store.es_search_id := 1; Store.es_expert_id := EmptyString;
           Store.es_rank_position := 1; Store.es_clicked := false;
           Store.es_click_timestamp := None |} ]
  ∧ ¬ Forall2 (Store.clicked_at 1 EmptyString 10)
        (Store.expert_searches (committed (conn Examples.anonymous_world)))
        (Store.expert_searches (committed (conn (snd r)))).
Proof.
  split_and!; [reflexivity|reflexivity|].
  intros H. vm_compute in H.
  apply Forall2_cons_1 in H as [_ H]. apply Forall2_cons_1 in H as [H _].
  destruct H as (_ & _ & _ & H). vm_compute in H. destruct H. discriminate.
Qed.

(** C10: [record_click] is not atomic.  When the server accepts the update
    of [search_logs] and rejects the update of [expert_searches], the call
    raises the server's error, yet the search row is committed as clicked:
    the first update was committed by its own [execute] and the rollback of
    the second cannot undo it.  The attribution rows are as before. *)
Theorem record_click_not_atomic (search_id : Z) (expert_id : string) (e : exn)
    (rest : list (option exn)) (w : World) :
  expert_id ≠ EmptyString →
  faults (conn w) = None :: Some e :: rest →
  quiescent w →
  let r := record_click search_id (Some expert_id) w in
  fst r = Raise e
  ∧ Forall2 (Store.search_clicked search_id)
      (Store.search_logs (committed (conn w)))
      (Store.search_logs (committed (conn (snd r))))
  ∧ Store.expert_searches (committed (conn (snd r)))
    = Store.expert_searches (committed (conn w))
  ∧ quiescent (snd r)
  ∧ (ERROR, ErrorRecordingClick e) ∈ log (snd r).
Proof.
  intros Hne Hf Hq r. unfold quiescent in Hq.
  assert (r = record_click search_id (Some expert_id) w) as Hr by done.
  unfold record_click in Hr.
  erewrite try_except_raise in Hr; cycle 1.
  { erewrite M_bind_ok by (apply (execute_ok _ _ (Some e :: rest)); by right).
    rewrite truthy_nonempty by done.
    apply M_bind_raise. apply (execute_fault _ _ e rest). simpl. by rewrite Hf. }
  rewrite Hr. simpl. rewrite Hq. split_and!; try done.
  - apply Forall2_fmap_r, Forall_Forall2_diag, Forall_forall. intros row _.
    unfold Store.search_clicked, Store.click_search_log.
    destruct (decide (Store.sl_id row = search_id)) as [Hrow|Hrow]; simpl.
    + by rewrite decide_True.
    + by rewrite decide_False.
  - set_solver.
Qed.

Lemma record_click_not_atomic_witness :
  let r := record_click 1 (Some "e7")
             (with_faults [None; Some (DatabaseError "deadlock detected")]
                Examples.seeded_world) in
  fst r = Raise (DatabaseError "deadlock detected")
  ∧ Store.sl_clicked <$> Store.search_logs (committed (conn Examples.seeded_world))
    = [false]
  ∧ Store.sl_clicked <$> Store.search_logs (committed (conn (snd r))) = [true]
  ∧ Store.es_clicked <$> Store.expert_searches (committed (conn (snd r))) = [false].
Proof.
  intros r. split_and!; [|reflexivity..].
  apply (record_click_not_atomic 1 "e7" (DatabaseError "deadlock detected") []
           (with_faults [None; Some (DatabaseError "deadlock detected")]
              Examples.seeded_world));
    [discriminate|reflexivity|reflexivity].
Defined.

End click_claims.

Section session_claims.
Import DatabaseManager.

Lemma bump_session_twice (a b session_id now total : Z) (rows : list Store.SessionRow) :
  total = a + b →
  Forall2 (Store.counted session_id 2 total) rows
    (Store.bump_session b session_id now
       <$> (Store.bump_session a session_id now <$> rows)).
Proof.
  intros ->. rewrite <- list_fmap_compose.
  apply Forall2_fmap_r, Forall_Forall2_diag, Forall_forall. intros row _.
  unfold Store.counted, Store.bump_session. simpl.
  destruct (decide (Store.ss_id row = session_id)) as [Hrow|Hrow]; simpl.
  - rewrite decide_True by done. simpl. split_and!; [done..|lia|lia].
  - by rewrite decide_False.
Qed.

(** On its normal path [update_search_session] is its two connection calls:
    one [UPDATE] statement, whose increment the server computes on the row,
    and the commit. *)
Lemma update_search_session_steps (session_id : Z) (successful : bool) (w : World) :
  faults (conn w) = [] →
  update_search_session session_id successful w
  = run_actions (update_search_session_actions session_id successful) w.
Proof.
  intros Hf. unfold update_search_session.
  erewrite try_except_ok; cycle 1.
  { erewrite M_bind_ok by (apply (execute_ok _ _ []); by left). reflexivity. }
  destruct w as [[c p f clk fl] lg cl]. simpl in Hf. subst fl. reflexivity.
Qed.

(** C9: [update_search_session] increments in the store, with one
    statement.  Two calls for the same session that run concurrently on the
    shared connection, whatever the order in which their [execute] and
    [commit] calls interleave, leave [query_count] of that session greater
    by exactly 2 (and [successful_searches] by the number of successful
    calls); no other session changes its counters. *)
Theorem update_search_session_no_lost_update (session_id : Z) (s1 s2 : bool)
    (sched : list action) (w : World) :
  interleaving (update_search_session_actions session_id s1)
               (update_search_session_actions session_id s2) sched →
  faults (conn w) = [] →
  quiescent w →
  update_search_session session_id s1 w
    = run_actions (update_search_session_actions session_id s1) w
  ∧ fst (run_actions sched w) = Ok ()
  ∧ quiescent (snd (run_actions sched w))
  ∧ Forall2 (Store.counted session_id 2
               ((if s1 then 1 else 0) + (if s2 then 1 else 0)))
      (Store.search_sessions (committed (conn w)))
      (Store.search_sessions (committed (conn (snd (run_actions sched w))))).
Proof.
  intros Hsched Hf Hq. split; [by apply update_search_session_steps|].
  destruct w as [[c p f clk fl] lg cl]. unfold quiescent in *. simpl in Hf, Hq.
  subst fl p. unfold update_search_session_actions in Hsched.
  repeat match goal with
         | H : interleaving _ _ _ |- _ => inversion H; subst; clear H
         end;
    (split_and!; [reflexivity|reflexivity|]; simpl;
     apply bump_session_twice; lia).
Qed.

(** The schedule in which both statements run before either commit. *)
Lemma update_search_session_no_lost_update_witness :
  let sched := [ CurExecute (Store.UpdateSearchSession 1 1);
                 CurExecute (Store.UpdateSearchSession 1 1);
                 ConnCommit; ConnCommit ] in
  Store.ss_query_count
    <$> Store.search_sessions (committed (conn Examples.seeded_world)) = [0]
  ∧ Store.ss_query_count
      <$> Store.search_sessions
            (committed (conn (snd (run_actions sched Examples.seeded_world)))) = [2]
  ∧ Forall2 (Store.counted 1 2 2)
      (Store.search_sessions (committed (conn Examples.seeded_world)))
      (Store.search_sessions
         (committed (conn (snd (run_actions sched Examples.seeded_world))))).
Proof.
  intros sched. split_and!; [reflexivity|reflexivity|].
  apply (update_search_session_no_lost_update 1 true true sched Examples.seeded_world);
    [|reflexivity|reflexivity].
  apply interleaving_left, interleaving_right, interleaving_left, interleaving_right,
    interleaving_nil.
Defined.

End session_claims.

(** ** The scans by title *)

Section title_facts.
Import Endpoints TitleSearch.

Lemma append_cons (c : Ascii.ascii) (s t : string) :
  String c s +:+ t = String c (s +:+ t).
Proof. reflexivity. Qed.

Lemma append_empty_l (t : string) : EmptyString +:+ t = t.
Proof. reflexivity. Qed.

Lemma prefix_spec (s1 s2 : string) :
  String.prefix s1 s2 = true ↔ ∃ post, s2 = s1 +:+ post.
Proof.
  revert s1. induction s2 as [|b s2 IH]; intros [|a s1]; simpl.
  - split; [by exists EmptyString|done].
  - split; [done|]. intros [post Hpost]. by rewrite append_cons in Hpost.
  - split; [by eexists|done].
  - destruct (Ascii.ascii_dec a b) as [->|Hab].
    + rewrite IH. split; intros [post Hpost]; exists post.
      * by rewrite append_cons, Hpost.
      * rewrite append_cons in Hpost. by injection Hpost.
    + split; [done|]. intros [post Hpost]. rewrite append_cons in Hpost. congruence.
Qed.

Lemma contains_unfold (needle hay : string) :
  contains needle hay
  = String.prefix needle hay
    || match hay with
       | EmptyString => false
       | String _ rest => contains needle rest
       end.
Proof. by destruct hay. Qed.

Lemma contains_spec (needle hay : string) :
  contains needle hay = true ↔ ∃ pre post, hay = pre +:+ needle +:+ post.
Proof.
  induction hay as [|c hay IH]; rewrite contains_unfold, orb_true_iff, prefix_spec.
  - split.
    + intros [[post Hpost]|?]; [|done]. by exists EmptyString, post.
    + intros (pre & post & Hhay). left. exists post.
      destruct pre; [done|]. by rewrite append_cons in Hhay.
  - rewrite IH. split.
    + intros [[post Hpost]|(pre & post & ->)].
      * by exists EmptyString, post.
      * by exists (String c pre), post.
    + intros ([|c' pre] & post & Hhay).
      * left. by exists post.
      * right. exists pre, post. rewrite append_cons in Hhay. congruence.
Qed.

Lemma append_empty_r (s : string) : s +:+ EmptyString = s.
Proof. induction s as [|c s IH]; [done|]. by rewrite append_cons, IH. Qed.

Lemma contains_refl (s : string) : contains s s = true.
Proof.
  apply contains_spec. exists EmptyString, EmptyString.
  by rewrite append_empty_l, append_empty_r.
Qed.

Lemma contains_empty (s : string) : contains EmptyString s = true.
Proof. by destruct s. Qed.

(** The sort leaves a list of matches as it is: all keys are 1.0. *)
Lemma sort_by_similarity_matches (docs : list (gmap string string)) :
  sort_by_similarity (as_match <$> docs) = as_match <$> docs.
Proof.
  unfold sort_by_similarity. induction docs as [|doc docs IH]; [done|].
  rewrite fmap_cons. simpl. rewrite IH. by destruct docs.
Qed.

Lemma scan_titles_spec items title_query matching_docs :
  Forall titled items.*2 →
  scan_titles items title_query matching_docs
  = Returned (matching_docs
              ++ (as_match <$> filter (λ doc, title_has title_query doc = true) items.*2)).
Proof.
  revert matching_docs.
  induction items as [|[idx doc] items IH]; intros matching_docs; simpl.
  - intros _. by rewrite app_nil_r.
  - intros [[doc_title Hdoc] Hrest]%Forall_cons. rewrite Hdoc.
    assert (title_has title_query doc
            = contains (lower title_query) (lower doc_title)) as Hhas.
    { unfold title_has. by rewrite Hdoc. }
    rewrite filter_cons.
    destruct (contains (lower title_query) (lower doc_title)) eqn:Hc.
    + rewrite decide_True by done. rewrite IH by done.
      by rewrite <- app_assoc.
    + rewrite decide_False by (by rewrite Hhas). by apply IH.
Qed.

Lemma scan_titles_error items title_query matching_docs :
  scan_titles items title_query matching_docs = KeyError_Title
  ↔ Exists (λ p, ¬ titled p.2) items.
Proof.
  revert matching_docs.
  induction items as [|[idx doc] items IH]; intros matching_docs; simpl.
  - split; [done|]. by intros ?%Exists_nil.
  - rewrite Exists_cons. simpl. unfold titled at 1.
    destruct (doc !! "Title") as [doc_title|] eqn:Hdoc.
    + destruct (contains _ _); rewrite IH; split; eauto;
        (intros [Hno|?]; [|done]); exfalso; apply Hno; eauto.
    + split; [|done]. intros _. left. by intros [? ?].
Qed.

End title_facts.

Section title_properties.
Import Endpoints TitleSearch.

(** X1: over a catalog whose chunks all have a title, [search_by_title]
    returns the chunks whose title contains the query (letter case apart),
    in the catalog's order, cut by [[:k]]; each comes with similarity 1.0,
    and for k not negative there are [min k matches] of them. *)
Theorem search_by_title_first_matches (items : list (Z * gmap string string))
    (title_query : string) (k : Z) :
  Forall titled items.*2 →
  let matches := filter (λ doc, title_has title_query doc = true) items.*2 in
  ∃ docs,
    search_by_title items title_query k = Returned docs
    ∧ docs = slice_to (as_match <$> matches) k
    ∧ Forall (λ m, tm_similarity m = 1%Q
                   ∧ title_has title_query (tm_metadata m) = true) docs
    ∧ (0 ≤ k → length docs = Nat.min (Z.to_nat k) (length matches)).
Proof.
  intros Htitled matches. eexists. split_and!; [|reflexivity| |].
  - unfold search_by_title. rewrite scan_titles_spec by done. simpl.
    by rewrite sort_by_similarity_matches.
  - apply Forall_forall. intros m Hm%slice_to_elem_of.
    apply list_elem_of_fmap in Hm as (doc & -> & Hdoc).
    apply list_elem_of_filter in Hdoc as [Hdoc _]. done.
  - intros Hk. rewrite slice_to_nonneg by done.
    by rewrite length_take, length_fmap.
Qed.

Lemma search_by_title_first_matches_witness :
  ∃ docs,
    search_by_title Catalogs.neural_items "neural" 2 = Returned docs
    ∧ tm_metadata <$> docs
      = [ Examples.chunk "Neural networks" "AI"; Examples.chunk "Deep NEURAL nets" "AI" ]
    ∧ Forall (λ m, tm_similarity m = 1%Q) docs.
Proof.
  destruct (search_by_title_first_matches Catalogs.neural_items "neural" 2)
    as (docs & Hdocs & -> & Hall & _).
  - repeat constructor; by eexists.
  - exists (slice_to (as_match <$>
              filter (λ doc, title_has "neural" doc = true) Catalogs.neural_items.*2) 2).
    split_and!; [done|vm_compute; reflexivity|].
    eapply Forall_impl; [exact Hall|]. by intros m [? _].
Defined.

(** X2: [search_by_title] raises [KeyError('Title')] exactly when some
    chunk of the catalog has no title, whatever the query and k are: the
    scan reads every chunk before it cuts the list. *)
Theorem search_by_title_key_error (items : list (Z * gmap string string))
    (title_query : string) (k : Z) :
  search_by_title items title_query k = KeyError_Title
  ↔ Exists (λ p, ¬ titled p.2) items.
Proof.
  unfold search_by_title. rewrite <- (scan_titles_error items title_query []).
  by destruct (scan_titles items title_query []).
Qed.

(** X3: with an empty query every titled chunk matches: the result is the
    catalog itself, in order, cut by [[:k]]. *)
Theorem search_by_title_empty_query (items : list (Z * gmap string string)) (k : Z) :
  Forall titled items.*2 →
  search_by_title items EmptyString k = Returned (slice_to (as_match <$> items.*2) k).
Proof.
  intros Htitled. unfold search_by_title. rewrite scan_titles_spec by done. simpl.
  rewrite sort_by_similarity_matches. do 3 f_equal.
  induction Htitled as [|doc docs [doc_title Hdoc] _ IH]; [done|].
  rewrite filter_cons, decide_True; [by rewrite IH|].
  unfold title_has. rewrite Hdoc. apply contains_empty.
Qed.

Lemma search_by_title_empty_query_witness :
  search_by_title Catalogs.neural_items EmptyString 2
  = Returned [ as_match (Examples.chunk "Neural networks" "AI");
               as_match (Examples.chunk "Malaria vectors" "Health") ].
Proof.
  rewrite (search_by_title_empty_query Catalogs.neural_items 2).
  - reflexivity.
  - repeat constructor; by eexists.
Defined.

(** X4: when [get_summary_by_title] returns a chunk, it is the first chunk
    of the catalog, in iteration order, whose title equals the requested
    one letter case apart; every chunk before it has another title; and it
    is the chunk stored under its ordinal. *)
Theorem get_summary_by_title_first (se : SearchEngine.t)
    (items : list (Z * gmap string string)) (title : string)
    (doc : gmap string string) :
  items_of se items →
  get_summary_by_title items title = Returned (Some doc) →
  ∃ before idx after,
    items = before ++ (idx, doc) :: after
    ∧ title_is title doc
    ∧ Forall (λ p, title_is_not title p.2) before
    ∧ SearchEngine.chunk_mapping se !! idx = Some doc.
Proof.
  intros [Hnodup Hmap] Hget.
  assert (∃ before idx after,
            items = before ++ (idx, doc) :: after
            ∧ title_is title doc
            ∧ Forall (λ p, title_is_not title p.2) before)
    as (before & idx & after & Hitems & Hdoc & Hbefore).
  { clear Hnodup Hmap. induction items as [|[idx0 doc0] items IH]; simpl in Hget; [done|].
    destruct (doc0 !! "Title") as [doc_title|] eqn:Hdoc0; [|done].
    destruct (String.eqb_spec (lower doc_title) (lower title)) as [Heq|Hne].
    - injection Hget as <-. exists [], idx0, items. split_and!; [done| |done].
      by exists doc_title.
    - destruct (IH Hget) as (before & idx & after & -> & Hdoc & Hbefore).
      exists ((idx0, doc0) :: before), idx, after. split_and!; [done..|].
      constructor; [|done]. by exists doc_title. }
  exists before, idx, after. split_and!; [done..|].
  rewrite <- Hmap. apply elem_of_list_to_map; [done|].
  rewrite Hitems. set_solver.
Qed.

Lemma get_summary_by_title_first_witness :
  ∃ before idx after,
    Catalogs.neural_items
    = before ++ (idx, Examples.chunk "neural" "AI") :: after
    ∧ title_is "NEURAL" (Examples.chunk "neural" "AI")
    ∧ Forall (λ p, title_is_not "NEURAL" p.2) before
    ∧ SearchEngine.chunk_mapping Catalogs.neural_engine !! idx
      = Some (Examples.chunk "neural" "AI").
Proof.
  apply (get_summary_by_title_first Catalogs.neural_engine Catalogs.neural_items).
  - split; [|reflexivity]. apply (bool_decide_unpack _). vm_compute. exact I.
  - vm_compute. reflexivity.
Defined.

(** X5: [get_summary_by_title] returns [None] exactly when every chunk has
    a title and none of the titles equals the requested one, letter case
    apart. *)
Theorem get_summary_by_title_none (items : list (Z * gmap string string))
    (title : string) :
  get_summary_by_title items title = Returned None
  ↔ Forall (λ p, title_is_not title p.2) items.
Proof.
  induction items as [|[idx doc] items IH]; simpl; [done|].
  rewrite Forall_cons. simpl. unfold title_is_not at 1.
  destruct (doc !! "Title") as [doc_title|] eqn:Hdoc.
  - destruct (String.eqb_spec (lower doc_title) (lower title)) as [Heq|Hne].
    + split; [done|]. intros [(? & [= <-] & Hne) _]. done.
    + rewrite IH. split; [|by intros [_ ?]]. intros ?. split; [|done]. eauto.
  - split; [done|]. by intros [(? & ? & _) _].
Qed.

(** X6: [get_summary_by_title] raises [KeyError('Title')] exactly when a
    chunk without title comes before any chunk with the requested title: a
    chunk without title that comes after the first match is never read. *)
Theorem get_summary_by_title_key_error (items : list (Z * gmap string string))
    (title : string) :
  get_summary_by_title items title = KeyError_Title
  ↔ ∃ before idx doc after,
      items = before ++ (idx, doc) :: after
      ∧ ¬ titled doc
      ∧ Forall (λ p, title_is_not title p.2) before.
Proof.
  induction items as [|[idx0 doc0] items IH]; simpl.
  - split; [done|]. intros (before & ? & ? & ? & Hnil & _). by destruct before.
  - destruct (doc0 !! "Title") as [doc_title|] eqn:Hdoc0.
    + destruct (String.eqb_spec (lower doc_title) (lower title)) as [Heq|Hne].
      * split; [done|].
        intros ([|[? ?] before] & idx & doc & after & Hitems & Hno & Hb); exfalso.
        -- injection Hitems as -> ->. apply Hno. by exists doc_title.
        -- injection Hitems as -> -> ->.
           apply Forall_cons in Hb as [(? & Ht & Hne) _]. simpl in Ht. congruence.
      * rewrite IH. split.
        -- intros (before & idx & doc & after & -> & Hno & Hb).
           exists ((idx0, doc0) :: before), idx, doc, after. split_and!; [done..|].
           constructor; [|done]. by exists doc_title.
        -- intros ([|[? ?] before] & idx & doc & after & Hitems & Hno & Hb).
           ++ injection Hitems as -> ->. exfalso. apply Hno. by exists doc_title.
           ++ injection Hitems as -> -> ->. apply Forall_cons in Hb as [_ Hb]. eauto 10.
    + split; [|done]. intros _. exists [], idx0, doc0, items.
      split_and!; [done| |done]. unfold titled. rewrite Hdoc0. by intros [? ?].
Qed.

(** X7: both scans depend on their argument only through its lower-cased
    form. *)
Theorem title_scans_ignore_case (items : list (Z * gmap string string))
    (title1 title2 : string) (k : Z) :
  lower title1 = lower title2 →
  get_summary_by_title items title1 = get_summary_by_title items title2
  ∧ search_by_title items title1 k = search_by_title items title2 k.
Proof.
  intros Hlower. split.
  - induction items as [|[idx doc] items IH]; simpl; [done|].
    destruct (doc !! "Title"); [|done]. by rewrite Hlower, IH.
  - unfold search_by_title.
    assert (∀ acc, scan_titles items title1 acc = scan_titles items title2 acc) as ->;
      [|done].
    induction items as [|[idx doc] items IH]; intros acc; simpl; [done|].
    destruct (doc !! "Title"); [|done]. by rewrite Hlower, !IH.
Qed.

Lemma title_scans_ignore_case_witness :
  get_summary_by_title Catalogs.neural_items "NeUrAl"
  = get_summary_by_title Catalogs.neural_items "neural"
  ∧ search_by_title Catalogs.neural_items "NeUrAl" 3
    = search_by_title Catalogs.neural_items "neural" 3.
Proof.
  apply (title_scans_ignore_case Catalogs.neural_items "NeUrAl" "neural" 3).
  reflexivity.
Defined.

(** X8: a chunk that [get_summary_by_title] returns for a title is among
    the results of [search_by_title] for the same title, once k is at least
    the size of a catalog whose chunks all have a title. *)
Theorem summary_among_title_matches (items : list (Z * gmap string string))
    (title : string) (doc : gmap string string) (k : Z) :
  Forall titled items.*2 →
  get_summary_by_title items title = Returned (Some doc) →
  Z.of_nat (length items) ≤ k →
  ∃ docs, search_by_title items title k = Returned docs ∧ as_match doc ∈ docs.
Proof.
  intros Htitled Hget Hk.
  eexists. split.
  { unfold search_by_title. rewrite scan_titles_spec by done. simpl.
    by rewrite sort_by_similarity_matches. }
  rewrite slice_to_nonneg by lia. rewrite take_ge.
  2:{ rewrite length_fmap. etrans; [apply length_filter|]. rewrite length_fmap. lia. }
  apply list_elem_of_fmap_2, list_elem_of_filter.
  clear Hk Htitled.
  induction items as [|[idx0 doc0] items IH]; simpl in Hget; [done|].
  destruct (doc0 !! "Title") as [doc_title|] eqn:Hdoc0; [|done].
  destruct (String.eqb_spec (lower doc_title) (lower title)) as [Heq|Hne].
  - injection Hget as <-. split; [|set_solver].
    unfold title_has. rewrite Hdoc0, Heq. apply contains_refl.
  - destruct (IH Hget) as [? ?]. split; [done|]. set_solver.
Qed.

Lemma summary_among_title_matches_witness :
  ∃ docs, search_by_title Catalogs.neural_items "NEURAL" 5 = Returned docs
          ∧ as_match (Examples.chunk "neural" "AI") ∈ docs.
Proof.
  apply (summary_among_title_matches Catalogs.neural_items "NEURAL").
  - repeat constructor; by eexists.
  - vm_compute. reflexivity.
  - simpl. lia.
Defined.

End title_properties.

Section title_witnesses.
Import Endpoints TitleSearch.

Lemma search_by_title_key_error_witness :
  search_by_title Catalogs.untitled_items "neural" 1 = KeyError_Title.
Proof.
  apply (search_by_title_key_error Catalogs.untitled_items "neural" 1).
  apply Exists_exists. exists (5, {[ "Domain" := "AI" ]}). split.
  - unfold Catalogs.untitled_items. set_solver.
  - intros [? Htitle]. vm_compute in Htitle. discriminate.
Defined.

Lemma get_summary_by_title_none_witness :
  get_summary_by_title Catalogs.neural_items "Soil erosion" = Returned None.
Proof.
  apply (get_summary_by_title_none Catalogs.neural_items "Soil erosion").
  repeat constructor; eexists; (split; [reflexivity|]); vm_compute; discriminate.
Defined.

Lemma get_summary_by_title_key_error_witness :
  get_summary_by_title Catalogs.untitled_items "Soil erosion" = KeyError_Title
  ∧ get_summary_by_title Catalogs.untitled_items "neural"
    = Returned (Some (Examples.chunk "neural" "AI")).
Proof.
  split; [|vm_compute; reflexivity].
  apply (get_summary_by_title_key_error Catalogs.untitled_items "Soil erosion").
  exists Catalogs.neural_items, 5, {[ "Domain" := "AI" ]}, []. split_and!.
  - reflexivity.
  - intros [? Htitle]. vm_compute in Htitle. discriminate.
  - repeat constructor; eexists; (split; [reflexivity|]); vm_compute; discriminate.
Defined.

End title_witnesses.

(** ** More on [SearchEngine.search] *)

Section search_more.
Import SearchEngine.

Lemma search_loop_built (se : SearchEngine.t) pairs results acc :
  Forall2 (built_from se) results pairs →
  search_loop se pairs acc = Ok (acc ++ results).
Proof.
  intros Hbuilt. revert acc.
  induction Hbuilt as [|r [idx score] results pairs (Hmd & Hscore & found & Hfound & Hexp) _ IH];
    intros acc; simpl.
  - by rewrite app_nil_r.
  - simpl in Hmd, Hscore. rewrite Hmd, Hfound. simpl.
    rewrite IH, <- app_assoc. do 3 f_equal.
    destruct r as [md sc ex]. simpl in *. by subst.
Qed.

(** X9: [search] returns a list exactly when the encoder and the index
    answer and every slot of the reply yields an entry (its ordinal is a key
    of the catalog and the attributor answers for the chunk's domain); the
    list then holds the entries of all the slots in the order of the reply:
    there is no partial result. *)
Theorem search_ok_iff (se : SearchEngine.t) (query : string) (k : Z)
    (results : list SearchResult) :
  search se query k = Ok results
  ↔ ∃ query_vector D0 I0,
      get_embedding se query = Ok query_vector
      ∧ index_search se query_vector k = Ok (D0, I0)
      ∧ Forall2 (built_from se) results (zip I0 D0).
Proof.
  split.
  - unfold search. destruct (get_embedding se query) as [v|] eqn:Hv; [|done]. simpl.
    destruct (index_search se v k) as [[D0 I0]|] eqn:Hi; [|done]. simpl.
    intros (new & -> & Hnew)%search_loop_inv. by exists v, D0, I0.
  - intros (v & D0 & I0 & Hv & Hi & Hbuilt).
    unfold search. rewrite Hv. simpl. rewrite Hi. simpl.
    by rewrite (search_loop_built se _ results []).
Qed.

Lemma search_ok_iff_witness :
  search Examples.corpus2 "malaria" 1
  = Ok [ {| metadata := Examples.chunk "Urban growth" "Population";
            similarity_score := (1 # 4)%Q;
            experts := [ {| expert_id := "e1"; expert_name := "Population" |};
                         {| expert_id := "e2"; expert_name := "Population" |};
                         {| expert_id := "e3"; expert_name := "Population" |} ] |} ].
Proof.
  apply (search_ok_iff Examples.corpus2 "malaria" 1).
  exists [1 # 2; 1 # 3]%Q, [1 # 4]%Q, [1]. split_and!; [reflexivity..|].
  constructor; [|constructor]. split_and!; [reflexivity..|].
  eexists. split; reflexivity.
Defined.

(** X10: when the attributor answers, [search] raises [KeyError(idx)] for
    the first ordinal [idx] of the reply that is not a key of the catalog,
    whatever comes after it; the entries already built are dropped. *)
Theorem search_missing_ordinal (se : SearchEngine.t) (query : string) (k : Z)
    (query_vector D0 : list Q) (found missing : list Z) (idx : Z) :
  attributor_total se →
  get_embedding se query = Ok query_vector →
  index_search se query_vector k = Ok (D0, found ++ idx :: missing) →
  Forall (λ i, is_Some (chunk_mapping se !! i)) found →
  chunk_mapping se !! idx = None →
  (length found < length D0)%nat →
  search se query k = Raise (KeyError idx).
Proof.
  intros Htot Hv Hi Hfound Hidx Hlen.
  unfold search. rewrite Hv. simpl. rewrite Hi. simpl.
  rewrite <- (take_drop (length found) D0).
  rewrite zip_with_app by (rewrite length_take; lia).
  rewrite search_loop_app.
  assert (Forall (λ hit : Z * Q, is_Some (chunk_mapping se !! hit.1))
            (zip found (take (length found) D0))) as Hin.
  { by apply (zip_fst_in _ _ (λ i, is_Some (chunk_mapping se !! i))). }
  destruct (search_loop_ok se _ [] Htot Hin) as [out ->]. simpl.
  destruct (drop (length found) D0) as [|score D1] eqn:HD.
  { apply (f_equal length) in HD. rewrite length_drop in HD. simpl in HD. lia. }
  simpl. by rewrite Hidx.
Qed.

Lemma search_missing_ordinal_witness :
  search Examples.corpus2 "malaria" 4 = Raise (KeyError (-1)).
Proof.
  apply (search_missing_ordinal Examples.corpus2 "malaria" 4 [1 # 2; 1 # 3]%Q
           [1 # 4; 3 # 4; 1000 # 1; 1000 # 1]%Q [1; 0] [-1] (-1)).
  - intros domain. eexists. reflexivity.
  - reflexivity.
  - reflexivity.
  - repeat constructor; by eexists.
  - reflexivity.
  - simpl. lia.
Defined.

End search_more.

(** ** More on the routes *)

Section route_properties.
Import Endpoints PredictSpec.

(** X11: when the engine raises, the search route answers HTTP 500 with the
    text of the exception and never reaches [add_query]: the connection is
    as it was, and the log gains the request and the error. *)
Theorem search_route_failure_stores_nothing (search_engine : SearchEngine.t)
    (add_query : string → Z → string → option string → M (option Z))
    (query : string) (limit : Z) (e : exn) (w : World) :
  SearchEngine.search search_engine query limit = Raise e →
  search search_engine add_query query limit w
  = (Raise (HTTPException 500 (str_exn e)),
     {| conn := conn w;
        log := log w ++ [(INFO, ReceivedSearch query limit); (ERROR, SearchError e)];
        calls := calls w |}).
Proof.
  intros Hsearch. unfold search.
  erewrite try_except_raise; cycle 1.
  { erewrite M_bind_ok by reflexivity. apply M_bind_raise. unfold lift.
    by rewrite Hsearch. }
  unfold mbind, M_bind, logger, raise. simpl. by rewrite <- app_assoc.
Qed.

Lemma search_route_failure_stores_nothing_witness :
  search Examples.corpus2 DatabaseManager.add_query "malaria" 3 Examples.seeded_world
  = (Raise (HTTPException 500 "-1"),
     {| conn := conn Examples.seeded_world;
        log := [(INFO, ReceivedSearch "malaria" 3); (ERROR, SearchError (KeyError (-1)))];
        calls := [] |}).
Proof.
  rewrite (search_route_failure_stores_nothing Examples.corpus2
             DatabaseManager.add_query "malaria" 3 (KeyError (-1))).
  - reflexivity.
  - vm_compute. reflexivity.
Defined.

(** X12: when the engine answers and the store accepts the insert, the
    search route commits exactly one new row of [query_history_ai], holding
    the query, the number of results, the type ['semantic'] and no user;
    the other tables are untouched and the response has one entry per
    result. *)
Theorem search_route_records_query (search_engine : SearchEngine.t) (query : string)
    (limit : Z) (results : list SearchEngine.SearchResult) (w : World) :
  SearchEngine.search search_engine query limit = Ok results →
  faults (conn w) = [] →
  quiescent w →
  let r := search search_engine DatabaseManager.add_query query limit w in
  let before := committed (conn w) in
  let after := committed (conn (snd r)) in
  fst r = Ok (format_result <$> results)
  ∧ Store.query_history_ai after
    = Store.query_history_ai before
      ++ [ {| Store.qh_query_id := Store.next_id (Store.query_history_ai before);
              Store.qh_query := query;
              Store.qh_result_count := Z.of_nat (length results);
              Store.qh_search_type := "semantic";
              Store.qh_user_id := None |} ]
  ∧ Store.search_logs after = Store.search_logs before
  ∧ Store.expert_searches after = Store.expert_searches before
  ∧ Store.search_sessions after = Store.search_sessions before
  ∧ quiescent (snd r).
Proof.
  intros Hsearch Hf Hq r before after. unfold quiescent in Hq.
  assert (r = search search_engine DatabaseManager.add_query query limit w) as Hr by done.
  unfold search in Hr.
  erewrite try_except_ok in Hr; cycle 1.
  { erewrite M_bind_ok by reflexivity.
    erewrite M_bind_ok by (unfold lift; by rewrite Hsearch).
    erewrite M_bind_ok; [reflexivity|].
    erewrite try_except_ok; [reflexivity|].
    erewrite M_bind_ok; [reflexivity|].
    unfold DatabaseManager.add_query.
    erewrite try_except_ok; [reflexivity|].
    erewrite M_bind_ok by (apply (execute_ok _ _ []); by left).
    reflexivity. }
  subst after before. rewrite Hr. simpl. rewrite Hq. split_and!; reflexivity.
Qed.

Lemma search_route_records_query_witness :
  let r := search Examples.corpus2 DatabaseManager.add_query "malaria" 2
             Examples.seeded_world in
  Store.query_history_ai (committed (conn (snd r)))
  = [ {| Store.qh_query_id := 1; Store.qh_query := "malaria";
         Store.qh_result_count := 2; Store.qh_search_type := "semantic";
         Store.qh_user_id := None |} ].
Proof.
  intros r.
  destruct (search_route_records_query Examples.corpus2 "malaria" 2
              (default [] (match SearchEngine.search Examples.corpus2 "malaria" 2 with
                           | Ok results => Some results
                           | Raise _ => None
                           end))
              Examples.seeded_world) as (_ & Hhistory & _);
    [vm_compute; reflexivity|reflexivity|reflexivity|].
  exact Hhistory.
Defined.

(** X13: when the engine answers and the server rejects the insert, the
    route still answers with the results; nothing is committed, no
    transaction is left open, and the rejection is logged three times, by
    [execute], by [add_query] and by the route. *)
Theorem search_route_store_failure (search_engine : SearchEngine.t) (query : string)
    (limit : Z) (results : list SearchEngine.SearchResult) (e : exn)
    (rest : list (option exn)) (w : World) :
  SearchEngine.search search_engine query limit = Ok results →
  faults (conn w) = Some e :: rest →
  quiescent w →
  let r := search search_engine DatabaseManager.add_query query limit w in
  fst r = Ok (format_result <$> results)
  ∧ committed (conn (snd r)) = committed (conn w)
  ∧ quiescent (snd r)
  ∧ log (snd r)
    = log w ++
      [ (INFO, ReceivedSearch query limit);
        (ERROR, QueryExecutionFailed e
                  (Store.InsertQueryHistory query (Z.of_nat (length results))
                     "semantic" None));
        (ERROR, ErrorAddingQuery e);
        (ERROR, FailedToStoreQuery e) ].
Proof.
  intros Hsearch Hf Hq r. unfold quiescent in Hq.
  assert (r = search search_engine DatabaseManager.add_query query limit w) as Hr by done.
  unfold search in Hr.
  erewrite try_except_ok in Hr; cycle 1.
  { erewrite M_bind_ok by reflexivity.
    erewrite M_bind_ok by (unfold lift; by rewrite Hsearch).
    erewrite M_bind_ok; [reflexivity|].
    erewrite try_except_raise; [reflexivity|].
    apply M_bind_raise.
    unfold DatabaseManager.add_query.
    erewrite try_except_raise; [reflexivity|].
    apply M_bind_raise. by apply (execute_fault _ _ e rest). }
  rewrite Hr. simpl. split_and!; [done..|].
  by rewrite <- !app_assoc.
Qed.

Lemma search_route_store_failure_witness :
  let r := search Examples.corpus2 DatabaseManager.add_query "malaria" 2
             (with_faults [Some (DatabaseError "connection lost")]
                Examples.seeded_world) in
  committed (conn (snd r)) = committed (conn Examples.seeded_world)
  ∧ length (log (snd r)) = 4%nat.
Proof.
  intros r.
  destruct (search_route_store_failure Examples.corpus2 "malaria" 2
              (default [] (match SearchEngine.search Examples.corpus2 "malaria" 2 with
                           | Ok results => Some results
                           | Raise _ => None
                           end))
              (DatabaseError "connection lost") []
              (with_faults [Some (DatabaseError "connection lost")]
                 Examples.seeded_world)) as (_ & Hc & _ & Hlog);
    [vm_compute; reflexivity|reflexivity|reflexivity|].
  split; [exact Hc|]. fold r in Hlog. by rewrite Hlog.
Defined.

End route_properties.

Section merge_properties.
Import Endpoints PredictSpec.

Lemma merge_predictions_take db_predictions search_predictions limit :
  0 ≤ limit →
  merge_predictions db_predictions search_predictions limit
  = take (Z.to_nat limit) (first_seen ∅ (db_predictions ++ search_predictions)).
Proof.
  intros Hlimit. unfold merge_predictions.
  rewrite slice_to_nonneg, combine_predictions_spec, first_seen_app by done.
  rewrite !take_app, take_take. do 3 f_equal; [lia|set_solver].
Qed.

Lemma first_seen_covers seen preds pred :
  pred ∈ preds → lower pred ∈ seen ∨ lower pred ∈ (lower <$> first_seen seen preds).
Proof.
  revert seen. induction preds as [|p preds IH]; intros seen; [by intros ?%elem_of_nil|].
  intros [->|Hin]%elem_of_cons; simpl.
  - case_decide; [by left|]. right. rewrite fmap_cons. set_solver.
  - case_decide.
    + by apply IH.
    + destruct (IH (seen ∪ {[lower p]}) Hin) as [Hseen|Hkept].
      * apply elem_of_union in Hseen as [?|Hp]; [by left|].
        right. rewrite fmap_cons. set_solver.
      * right. rewrite fmap_cons. set_solver.
Qed.

(** X14: when both sources answer, the predict route calls the DB source
    first, then the engine, and returns the merge of the two answers. *)
Theorem predict_merges_both_sources (db_manager search_engine : PyObject)
    (partial_query : string) (limit : Z) (w w1 w2 : World)
    (db_predictions search_predictions : list string) :
  (2 ≤ String.length partial_query)%nat →
  call_method db_manager "get_matching_queries" partial_query limit
      (snd (logger INFO (ReceivedPrediction partial_query) w))
    = (Ok db_predictions, w1) →
  call_method search_engine "predict_queries" partial_query limit
      (snd (logger INFO (DBPredictions db_predictions) w1))
    = (Ok search_predictions, w2) →
  predict_queries db_manager search_engine partial_query limit w
  = (Ok (merge_predictions db_predictions search_predictions limit),
     {| conn := conn w2;
        log := log w2 ++
          [ (INFO, SearchEnginePredictions search_predictions);
            (INFO, ReturningPredictions
                     (combine_predictions db_predictions search_predictions limit)) ];
        calls := calls w2 |}).
Proof.
  intros Hlong Hdb Hse. unfold predict_queries.
  erewrite M_bind_ok by reflexivity.
  erewrite try_except_ok; [reflexivity|].
  rewrite decide_False by lia.
  erewrite M_bind_ok by exact Hdb.
  erewrite M_bind_ok by reflexivity.
  erewrite M_bind_ok; cycle 1.
  { erewrite try_except_ok; [reflexivity|].
    erewrite M_bind_ok by exact Hse.
    erewrite M_bind_ok by reflexivity. reflexivity. }
  unfold mbind, M_bind, logger, mret, M_ret. simpl. by rewrite <- app_assoc.
Qed.

Lemma predict_merges_both_sources_witness :
  let r := predict_queries (Examples.db_source (Ok ["soil"; "Solar"]))
             (Examples.engine_source (Ok ["SOIL"; "sorghum"])) "so" 3
             Examples.fresh_world in
  fst r = Ok ["soil"; "Solar"; "sorghum"]
  ∧ calls (snd r) = [ ("StubDatabaseManager", "get_matching_queries");
                      ("StubSearchEngine", "predict_queries") ].
Proof.
  intros r. subst r.
  erewrite (predict_merges_both_sources _ _ "so" 3 _ _ _ ["soil"; "Solar"]
              ["SOIL"; "sorghum"]);
    [|simpl; lia|reflexivity|reflexivity].
  split; reflexivity.
Defined.

(** X15: raising a limit that is not negative only appends predictions:
    the merge for the smaller limit is a prefix of the merge for the
    larger. *)
Theorem merge_predictions_prefix (db_predictions search_predictions : list string)
    (limit1 limit2 : Z) :
  0 ≤ limit1 ≤ limit2 →
  merge_predictions db_predictions search_predictions limit1
  `prefix_of` merge_predictions db_predictions search_predictions limit2.
Proof.
  intros [H1 H2]. rewrite !merge_predictions_take by lia.
  replace (Z.to_nat limit1) with (Z.to_nat limit1 `min` Z.to_nat limit2)%nat by lia.
  rewrite <- take_take. apply prefix_take.
Qed.

Lemma merge_predictions_prefix_witness :
  merge_predictions ["soil"; "Solar"] ["SOIL"; "sorghum"] 1
  `prefix_of` merge_predictions ["soil"; "Solar"] ["SOIL"; "sorghum"] 3.
Proof.
  apply (merge_predictions_prefix ["soil"; "Solar"] ["SOIL"; "sorghum"] 1 3). lia.
Defined.

(** X16: when the DB matches alone, first-seen variants only, reach the
    limit (as is the case for every limit that is zero or negative), the
    engine predictions do not matter. *)
Theorem merge_predictions_db_fills_limit (db_predictions search_predictions : list string)
    (limit : Z) :
  limit ≤ Z.of_nat (length (first_seen ∅ db_predictions)) →
  merge_predictions db_predictions search_predictions limit
  = merge_predictions db_predictions [] limit.
Proof.
  intros Hfull. unfold merge_predictions. rewrite !combine_predictions_spec.
  replace (Z.to_nat (limit - Z.of_nat (length (first_seen ∅ db_predictions))))
    with 0%nat by lia.
  by rewrite !take_0.
Qed.

Lemma merge_predictions_db_fills_limit_witness :
  merge_predictions ["soil"; "Solar"] ["sorghum"] 2 = ["soil"; "Solar"]
  ∧ merge_predictions ["soil"; "Solar"] ["sorghum"] (-1) = ["soil"].
Proof.
  split.
  - rewrite (merge_predictions_db_fills_limit ["soil"; "Solar"] ["sorghum"] 2);
      [reflexivity|vm_compute; discriminate].
  - rewrite (merge_predictions_db_fills_limit ["soil"; "Solar"] ["sorghum"] (-1));
      [reflexivity|vm_compute; discriminate].
Defined.

(** X17: with a limit at least the number of predictions received, nothing
    is lost but case variants: the lower-cased form of every prediction of
    either source is the lower-cased form of a returned prediction. *)
Theorem merge_predictions_complete (db_predictions search_predictions : list string)
    (limit : Z) (pred : string) :
  Z.of_nat (length (db_predictions ++ search_predictions)) ≤ limit →
  pred ∈ db_predictions ++ search_predictions →
  lower pred ∈ (lower <$> merge_predictions db_predictions search_predictions limit).
Proof.
  intros Hlimit Hin. rewrite merge_predictions_take by lia.
  rewrite take_ge.
  2:{ etrans; [apply sublist_length, first_seen_sublist|]. lia. }
  destruct (first_seen_covers ∅ _ _ Hin) as [?|?]; [set_solver|done].
Qed.

Lemma merge_predictions_complete_witness :
  lower "SOIL" ∈ (lower <$> merge_predictions ["soil"; "Solar"] ["SOIL"; "sorghum"] 4).
Proof.
  apply (merge_predictions_complete ["soil"; "Solar"] ["SOIL"; "sorghum"] 4 "SOIL").
  - simpl. lia.
  - set_solver.
Defined.

End merge_properties.

(** ** Sequences of calls of the manager *)

Section keeps_facts.
Import DatabaseManager Requests.
Context (R : Store.Tables → Store.Tables → Prop).
Hypothesis R_refl : ∀ t, R t t.
Hypothesis R_trans : ∀ t1 t2 t3, R t1 t2 → R t2 t3 → R t1 t3.
Hypothesis R_run : ∀ q now t, issued q → R t (Store.run q now t).1.

Lemma keeps_ret {A} (a : A) : keeps R (mret a).
Proof. intros w Hq. split; [done|apply R_refl]. Qed.

Lemma keeps_raise {A} (e : exn) : keeps R (@raise A e).
Proof. intros w Hq. split; [done|apply R_refl]. Qed.

Lemma keeps_logger lvl msg : keeps R (logger lvl msg).
Proof. intros w Hq. split; [done|apply R_refl]. Qed.

Lemma keeps_bind {A B} (m : M A) (f : A → M B) :
  keeps R m → (∀ a, keeps R (f a)) → keeps R (m ≫= f).
Proof.
  intros Hm Hf w Hq. destruct (Hm w Hq) as [Hq1 HR1].
  unfold mbind, M_bind. destruct (m w) as [[a|e] w1]; simpl in *; [|done].
  destruct (Hf a w1 Hq1) as [Hq2 HR2]. split; [done|]. by eapply R_trans.
Qed.

Lemma keeps_try_except {A} (body : M A) (handler : exn → M A) :
  keeps R body → (∀ e, keeps R (handler e)) → keeps R (try_except body handler).
Proof.
  intros Hm Hh w Hq. destruct (Hm w Hq) as [Hq1 HR1].
  unfold try_except. destruct (body w) as [[a|e] w1]; simpl in *; [done|].
  destruct (Hh e w1 Hq1) as [Hq2 HR2]. split; [done|]. by eapply R_trans.
Qed.

Lemma keeps_execute (q : Store.statement) : issued q → keeps R (execute q).
Proof.
  intros Hissued w Hq. unfold quiescent in Hq.
  destruct (faults (conn w)) as [|[e|] rest] eqn:Hf.
  - rewrite (execute_ok q w []) by (by left). simpl. split; [done|].
    rewrite Hq. by apply R_run.
  - rewrite (execute_fault q w e rest) by done. simpl. split; [done|apply R_refl].
  - rewrite (execute_ok q w rest) by (by right). simpl. split; [done|].
    rewrite Hq. by apply R_run.
Qed.

Lemma keeps_first_row (result : list Z) : keeps R (first_row result).
Proof. destruct result; [apply keeps_raise|apply keeps_ret]. Qed.

Lemma keeps_method {A} (body : M A) (msg : exn → message) :
  keeps R body →
  keeps R (try_except body (λ e, logger ERROR (msg e);; raise e)).
Proof.
  intros Hbody. apply keeps_try_except; [done|]. intros e.
  apply keeps_bind; [apply keeps_logger|]. intros _. apply keeps_raise.
Qed.

Lemma keeps_run_call (c : call) : keeps R (run_call c).
Proof.
  destruct c as [query result_count search_type user_id
                |query user_id response_time result_count search_type
                |search_id expert_id rank_position
                |user_id
                |session_id successful
                |search_id expert_id]; simpl.
  - apply keeps_bind; [|intros _; apply keeps_ret].
    apply keeps_method, keeps_bind; [by apply keeps_execute|].
    intros result. apply keeps_ret.
  - apply keeps_bind; [|intros _; apply keeps_ret].
    apply keeps_method, keeps_bind; [by apply keeps_execute|].
    intros result. apply keeps_first_row.
  - apply keeps_method, keeps_bind; [by apply keeps_execute|].
    intros _. apply keeps_ret.
  - apply keeps_bind; [|intros _; apply keeps_ret].
    apply keeps_method, keeps_bind; [by apply keeps_execute|].
    intros result. apply keeps_first_row.
  - apply keeps_method, keeps_bind; [|intros _; apply keeps_ret].
    apply keeps_execute. by destruct successful.
  - apply keeps_method, keeps_bind; [by apply keeps_execute|]. intros _.
    destruct (truthy expert_id); [|apply keeps_ret].
    apply keeps_bind; [by apply keeps_execute|]. intros _. apply keeps_ret.
Qed.

Lemma keeps_run_calls (timed : list (Z * call)) (w : World) :
  quiescent w →
  quiescent (run_calls timed w)
  ∧ R (committed (conn w)) (committed (conn (run_calls timed w))).
Proof.
  revert w. induction timed as [|[now c] timed IH]; intros w Hq; simpl.
  - split; [done|apply R_refl].
  - destruct (keeps_run_call c (at_time now w) Hq) as [Hq1 HR1].
    destruct (IH _ Hq1) as [Hq2 HR2]. split; [done|].
    eapply R_trans; [exact HR1|exact HR2].
Qed.

End keeps_facts.

Section growth_facts.
Import Requests.

Lemma extends_refl {A} (R : A → A → Prop) (l : list A) :
  (∀ x, R x x) → extends R l l.
Proof.
  intros HR. exists l, []. split; [by rewrite app_nil_r|].
  by apply Forall_Forall2_diag, Forall_forall.
Qed.

Lemma extends_trans {A} (R : A → A → Prop) (l1 l2 l3 : list A) :
  (∀ x y z, R x y → R y z → R x z) →
  extends R l1 l2 → extends R l2 l3 → extends R l1 l3.
Proof.
  intros HR (kept & added & -> & H12) (kept' & added' & -> & H23).
  apply Forall2_app_inv_l in H23 as (k1 & k2 & Hk1 & _ & ->).
  exists k1, (k2 ++ added'). split; [by rewrite app_assoc|].
  clear -HR H12 Hk1. revert k1 Hk1.
  induction H12 as [|x y l1 kept Hxy _ IH]; intros k1 Hk1.
  - apply Forall2_nil_inv_l in Hk1 as ->. constructor.
  - apply Forall2_cons_inv_l in Hk1 as (z & k1' & Hyz & Hk1' & ->).
    constructor; [by eapply HR|by apply IH].
Qed.

Lemma extends_app {A} (R : A → A → Prop) (l new : list A) :
  (∀ x, R x x) → extends R l (l ++ new).
Proof.
  intros HR. exists l, new. split; [done|].
  by apply Forall_Forall2_diag, Forall_forall.
Qed.

Lemma extends_fmap {A} (R : A → A → Prop) (f : A → A) (l : list A) :
  (∀ x, R x (f x)) → extends R l (f <$> l).
Proof.
  intros HR. exists (f <$> l), []. split; [by rewrite app_nil_r|].
  apply Forall2_fmap_r, Forall_Forall2_diag, Forall_forall. intros x _. apply HR.
Qed.

Lemma session_grows_refl r : session_grows r r.
Proof. unfold session_grows. split_and!; done || lia. Qed.

Lemma search_log_grows_refl r : search_log_grows r r.
Proof. unfold search_log_grows. split_and!; done. Qed.

Lemma expert_search_grows_refl r : expert_search_grows r r.
Proof. unfold expert_search_grows. split_and!; done. Qed.

Lemma store_grows_refl t : store_grows t t.
Proof.
  unfold store_grows. split_and!; apply extends_refl;
    auto using session_grows_refl, search_log_grows_refl, expert_search_grows_refl.
Qed.

Lemma store_grows_trans t1 t2 t3 :
  store_grows t1 t2 → store_grows t2 t3 → store_grows t1 t3.
Proof.
  intros (Ha & Hb & Hc & Hd) (Ha' & Hb' & Hc' & Hd'). unfold store_grows.
  split_and!; (eapply extends_trans; [|eassumption|eassumption]).
  - intros. congruence.
  - unfold search_log_grows. intros x y z H1 H2.
    destruct H1 as (?&?&?&?&?&?&?), H2 as (?&?&?&?&?&?&?).
    split_and!; try congruence; auto.
  - unfold expert_search_grows. intros x y z H1 H2.
    destruct H1 as (?&?&?&?), H2 as (?&?&?&?). split_and!; try congruence; auto.
  - unfold session_grows. intros x y z H1 H2.
    destruct H1 as (?&?&?&?), H2 as (?&?&?&?). split_and!; try congruence; lia.
Qed.

Lemma store_grows_run q now t : issued q → store_grows t (Store.run q now t).1.
Proof.
  intros Hissued. unfold store_grows.
  destruct q; simpl in *; split_and!;
    try (apply extends_refl;
         auto using session_grows_refl, search_log_grows_refl,
           expert_search_grows_refl; fail);
    try (apply extends_app;
         auto using session_grows_refl, search_log_grows_refl,
           expert_search_grows_refl; fail);
    apply extends_fmap; intros r.
  - unfold session_grows, Store.bump_session. case_decide; simpl; split_and!; done || lia.
  - unfold search_log_grows, Store.click_search_log. case_decide; simpl; split_and!; done.
  - unfold expert_search_grows, Store.click_expert_search.
    case_decide; simpl; split_and!; done.
Qed.

Lemma counters_bounded_run q now t :
  issued q → counters_bounded t → counters_bounded (Store.run q now t).1.
Proof.
  unfold counters_bounded. intros Hissued Hb. destruct q; simpl in *; try done.
  - apply Forall_app. split; [done|]. repeat constructor; simpl; lia.
  - apply Forall_fmap. eapply Forall_impl; [exact Hb|]. intros r Hr.
    unfold compose, Store.bump_session. simpl in Hr.
    destruct (decide (Store.ss_id r = session_id)); simpl; lia.
Qed.

Lemma clicks_stamped_run q now t :
  clicks_stamped t → clicks_stamped (Store.run q now t).1.
Proof.
  unfold clicks_stamped. intros Hs. destruct q; simpl in *; try done.
  - apply Forall_app. split; [done|]. constructor; [|constructor]. simpl.
    split; [done|]. by intros [? ?].
  - apply Forall_fmap. eapply Forall_impl; [exact Hs|]. intros r Hr.
    unfold compose, Store.click_expert_search. simpl in Hr.
    destruct (decide (Store.es_search_id r = search_id
                      ∧ Store.es_expert_id r = expert_id)); simpl; [|done].
    split; [by eexists|done].
Qed.

End growth_facts.

Section sequence_properties.
Import DatabaseManager Requests.

(** X18: whatever calls of the manager are made one after the other,
    whenever they are made and whichever of their statements the server
    rejects, the committed store only grows: no row disappears or changes
    its identifying columns, a history row never changes, a counter of a
    session never decreases, and a clicked flag is never reset. *)
Theorem manager_calls_grow_store (timed : list (Z * call)) (w : World) :
  quiescent w →
  store_grows (committed (conn w)) (committed (conn (run_calls timed w))).
Proof.
  intros Hq.
  apply (keeps_run_calls store_grows store_grows_refl store_grows_trans
           store_grows_run timed w Hq).
Qed.

(** X19: under the same calls the store keeps two invariants: every
    session has [0 ≤ successful_searches ≤ query_count], and an attribution
    is clicked exactly when it has a click time; and every call returns
    with no transaction open. *)
Theorem manager_calls_keep_invariants (timed : list (Z * call)) (w : World) :
  quiescent w →
  counters_bounded (committed (conn w)) →
  clicks_stamped (committed (conn w)) →
  quiescent (run_calls timed w)
  ∧ counters_bounded (committed (conn (run_calls timed w)))
  ∧ clicks_stamped (committed (conn (run_calls timed w))).
Proof.
  intros Hq Hb Hs.
  destruct (keeps_run_calls
              (λ t t', (counters_bounded t → counters_bounded t')
                       ∧ (clicks_stamped t → clicks_stamped t'))
              ltac:(done) ltac:(naive_solver)
              ltac:(intros q now t Hi; split;
                    [by apply counters_bounded_run|apply clicks_stamped_run])
              timed w Hq) as [Hq' [Hb' Hs']].
  auto.
Qed.

End sequence_properties.

Section manager_more.
Import DatabaseManager Requests.

Lemma manager_calls_grow_store_witness :
  store_grows (committed (conn Examples.seeded_world))
    (committed (conn (run_calls
       [ (5, RecordClick 1 (Some "e7"));
         (6, UpdateSearchSession 1 false);
         (7, AddQuery "malaria" 2 "semantic" None) ]
       (with_faults [None; Some (DatabaseError "deadlock detected")]
          Examples.seeded_world)))).
Proof.
  apply (manager_calls_grow_store _
           (with_faults [None; Some (DatabaseError "deadlock detected")]
              Examples.seeded_world)).
  reflexivity.
Defined.

Lemma manager_calls_keep_invariants_witness :
  let w := run_calls
             [ (5, RecordClick 1 (Some "e7"));
               (6, UpdateSearchSession 1 false);
               (7, UpdateSearchSession 1 true) ]
             (with_faults [None; Some (DatabaseError "deadlock detected")]
                Examples.seeded_world) in
  quiescent w
  ∧ counters_bounded (committed (conn w))
  ∧ clicks_stamped (committed (conn w)).
Proof.
  apply (manager_calls_keep_invariants _
           (with_faults [None; Some (DatabaseError "deadlock detected")]
              Examples.seeded_world)).
  - reflexivity.
  - repeat constructor; simpl; lia.
  - repeat constructor; simpl; [done|by intros [? ?]].
Defined.

Lemma update_search_session_ok (session_id : Z) (successful : bool) (w : World) :
  faults (conn w) = [] →
  update_search_session session_id successful w
  = (Ok (),
     set_conn
       (let t := (Store.run (Store.UpdateSearchSession (if successful then 1 else 0)
                               session_id)
                    (clock (conn w)) (pending (conn w))).1 in
        {| committed := t; pending := t; fetched := None;
           clock := clock (conn w); faults := [] |}) w).
Proof.
  intros Hf. unfold update_search_session.
  erewrite try_except_ok; [reflexivity|].
  erewrite M_bind_ok by (apply (execute_ok _ _ []); by left).
  simpl. by rewrite Hf.
Qed.

Lemma record_click_plain (search_id : Z) (expert_id : option string) (w : World) :
  truthy expert_id = false →
  faults (conn w) = [] →
  record_click search_id expert_id w
  = (Ok (),
     set_conn
       (let t := (Store.run (Store.UpdateSearchLogClicked search_id)
                    (clock (conn w)) (pending (conn w))).1 in
        {| committed := t; pending := t; fetched := None;
           clock := clock (conn w); faults := [] |}) w).
Proof.
  intros Hexpert Hf. unfold record_click.
  erewrite try_except_ok; [reflexivity|].
  erewrite M_bind_ok by (apply (execute_ok _ _ []); by left).
  rewrite Hexpert. simpl. by rewrite Hf.
Qed.

Lemma record_expert_search_ok (search_id : Z) (expert_id : string) (rank_position : Z)
    (w : World) :
  faults (conn w) = [] →
  record_expert_search search_id expert_id rank_position w
  = (Ok (),
     set_conn
       (let t := (Store.run (Store.InsertExpertSearch search_id expert_id rank_position)
                    (clock (conn w)) (pending (conn w))).1 in
        {| committed := t; pending := t; fetched := None;
           clock := clock (conn w); faults := [] |}) w).
Proof.
  intros Hf. unfold record_expert_search.
  erewrite try_except_ok; [reflexivity|].
  erewrite M_bind_ok by (apply (execute_ok _ _ []); by left).
  simpl. by rewrite Hf.
Qed.

Lemma counted_refl (session_id : Z) (rows : list Store.SessionRow) :
  Forall2 (Store.counted session_id 0 0) rows rows.
Proof.
  apply Forall_Forall2_diag, Forall_forall. intros r _. unfold Store.counted.
  split_and!; [done..|]. case_decide; [lia|done].
Qed.

Lemma counted_compose (session_id a b c d : Z) (x y z : Store.SessionRow) :
  Store.counted session_id a b x y → Store.counted session_id c d y z →
  Store.counted session_id (a + c) (b + d) x z.
Proof.
  unfold Store.counted. intros (Hid & Hu & H1) (Hid' & Hu' & H2).
  split_and!; [congruence..|].
  destruct (decide (Store.ss_id x = session_id)) as [Hx|Hx].
  - rewrite decide_True in H2 by congruence. lia.
  - rewrite decide_False in H2 by congruence. destruct H1, H2. congruence.
Qed.

(** X20: updates of one session made one after the other, all accepted by
    the server, add up: [query_count] grows by the number of updates and
    [successful_searches] by the number of successful ones; the sessions
    with another id keep their rows. *)
Theorem session_updates_add_up (session_id : Z) (updates : list (Z * bool))
    (w : World) :
  faults (conn w) = [] →
  quiescent w →
  Forall2 (Store.counted session_id (Z.of_nat (length updates)) (successes updates))
    (Store.search_sessions (committed (conn w)))
    (Store.search_sessions
       (committed (conn (run_calls (session_updates session_id updates) w)))).
Proof.
  revert w. induction updates as [|[now successful] updates IH]; intros w Hf Hq.
  - apply counted_refl.
  - unfold session_updates. rewrite fmap_cons. simpl.
    rewrite update_search_session_ok by done. simpl.
    unfold quiescent in Hq. rewrite Hq.
    replace (Z.of_nat (S (length updates))) with (1 + Z.of_nat (length updates)) by lia.
    replace (successes ((now, successful) :: updates))
      with ((if successful then 1 else 0) + successes updates).
    2:{ unfold successes. rewrite filter_cons. simpl.
        destruct successful; [rewrite decide_True by done|rewrite decide_False by done];
          simpl; lia. }
    eapply (Forall2_trans (Store.counted session_id 1 (if successful then 1 else 0))
              (Store.counted session_id (Z.of_nat (length updates)) (successes updates))).
    { intros x y z. apply counted_compose. }
    2:{ apply IH; reflexivity. }
    simpl. apply Forall2_fmap_r, Forall_Forall2_diag, Forall_forall. intros r _.
    unfold Store.counted, Store.bump_session.
    destruct (decide (Store.ss_id r = session_id)) as [Hr|Hr]; simpl.
    + by rewrite decide_True.
    + by rewrite decide_False.
Qed.

Lemma session_updates_add_up_witness :
  let w := run_calls (session_updates 1 [(5, true); (6, false); (9, true)])
             Examples.seeded_world in
  Store.search_sessions (committed (conn w))
  = [ {| Store.ss_id := 1; Store.ss_user_id := "u1"; Store.ss_query_count := 3;
         Store.ss_successful_searches := 2; Store.ss_end_timestamp := Some 9 |} ]
  ∧ Forall2 (Store.counted 1 3 2)
      (Store.search_sessions (committed (conn Examples.seeded_world)))
      (Store.search_sessions (committed (conn w))).
Proof.
  intros w. split; [reflexivity|].
  apply (session_updates_add_up 1 [(5, true); (6, false); (9, true)]
           Examples.seeded_world); reflexivity.
Defined.

End manager_more.

Section manager_edges.
Import DatabaseManager Requests.

Lemma fmap_unchanged {A} (f : A → A) (l : list A) :
  Forall (λ x, f x = x) l → f <$> l = l.
Proof. induction 1 as [|x l Hx _ IH]; [done|]. by rewrite fmap_cons, Hx, IH. Qed.

(** X21: [update_search_session] for an id that no session has is accepted
    without any sign: the call returns normally and the committed store is
    the one before. *)
Theorem update_search_session_unknown (session_id : Z) (successful : bool) (w : World) :
  faults (conn w) = [] →
  quiescent w →
  Forall (λ r, Store.ss_id r ≠ session_id) (Store.search_sessions (committed (conn w))) →
  fst (update_search_session session_id successful w) = Ok ()
  ∧ committed (conn (snd (update_search_session session_id successful w)))
    = committed (conn w).
Proof.
  intros Hf Hq Hnone. unfold quiescent in Hq.
  rewrite update_search_session_ok by done. simpl. split; [done|].
  rewrite Hq. destruct (committed (conn w)) as [h l e s]. simpl in *. f_equal.
  apply fmap_unchanged. eapply Forall_impl; [exact Hnone|]. intros r Hr.
  unfold Store.bump_session. by rewrite decide_False.
Qed.

Lemma update_search_session_unknown_witness :
  fst (update_search_session 42 true Examples.seeded_world) = Ok ()
  ∧ committed (conn (snd (update_search_session 42 true Examples.seeded_world)))
    = committed (conn Examples.seeded_world).
Proof.
  apply (update_search_session_unknown 42 true Examples.seeded_world);
    [reflexivity|reflexivity|].
  apply (bool_decide_unpack _). vm_compute. exact I.
Defined.

(** X22: [record_click] for a search id that neither [search_logs] nor
    [expert_searches] knows is accepted without any sign, with or without
    an expert id: the call returns normally and the committed store is the
    one before. *)
Theorem record_click_unknown (search_id : Z) (expert_id : option string) (w : World) :
  faults (conn w) = [] →
  quiescent w →
  Forall (λ r, Store.sl_id r ≠ search_id) (Store.search_logs (committed (conn w))) →
  Forall (λ r, Store.es_search_id r ≠ search_id)
         (Store.expert_searches (committed (conn w))) →
  fst (record_click search_id expert_id w) = Ok ()
  ∧ committed (conn (snd (record_click search_id expert_id w))) = committed (conn w).
Proof.
  intros Hf Hq Hlogs Hexperts. unfold quiescent in Hq.
  assert (click_search_log_none :
            Store.click_search_log search_id <$> Store.search_logs (committed (conn w))
            = Store.search_logs (committed (conn w))).
  { apply fmap_unchanged. eapply Forall_impl; [exact Hlogs|]. intros r Hr.
    unfold Store.click_search_log. by rewrite decide_False. }
  destruct (truthy expert_id) eqn:Hexpert.
  - destruct expert_id as [expert_id|]; [|done].
    assert (expert_id ≠ EmptyString) as Hne.
    { intros ->. simpl in Hexpert. discriminate. }
    rewrite record_click_ok by done. simpl. split; [done|].
    rewrite Hq. destruct (committed (conn w)) as [h l e s]. simpl in *. f_equal; [done|].
    apply fmap_unchanged. eapply Forall_impl; [exact Hexperts|]. intros r Hr.
    unfold Store.click_expert_search. rewrite decide_False; [done|]. by intros [? _].
  - rewrite record_click_plain by done. simpl. split; [done|].
    rewrite Hq. destruct (committed (conn w)) as [h l e s]. simpl in *. by f_equal.
Qed.

Lemma record_click_unknown_witness :
  fst (record_click 42 (Some "e7") Examples.seeded_world) = Ok ()
  ∧ committed (conn (snd (record_click 42 (Some "e7") Examples.seeded_world)))
    = committed (conn Examples.seeded_world).
Proof.
  apply (record_click_unknown 42 (Some "e7") Examples.seeded_world);
    [reflexivity|reflexivity| |]; apply (bool_decide_unpack _); vm_compute; exact I.
Defined.

(** X23: [record_click] without an expert id ([None] or the empty string)
    marks the search row clicked and touches nothing else: attributions,
    sessions and history are as before. *)
Theorem record_click_without_expert (search_id : Z) (expert_id : option string)
    (w : World) :
  truthy expert_id = false →
  faults (conn w) = [] →
  quiescent w →
  let r := record_click search_id expert_id w in
  fst r = Ok ()
  ∧ Forall2 (Store.search_clicked search_id)
      (Store.search_logs (committed (conn w)))
      (Store.search_logs (committed (conn (snd r))))
  ∧ Store.expert_searches (committed (conn (snd r)))
    = Store.expert_searches (committed (conn w))
  ∧ Store.search_sessions (committed (conn (snd r)))
    = Store.search_sessions (committed (conn w))
  ∧ Store.query_history_ai (committed (conn (snd r)))
    = Store.query_history_ai (committed (conn w)).
Proof.
  intros Hexpert Hf Hq r. unfold quiescent in Hq. subst r.
  rewrite record_click_plain by done. simpl. rewrite Hq. split_and!; try done.
  apply Forall2_fmap_r, Forall_Forall2_diag, Forall_forall. intros row _.
  unfold Store.search_clicked, Store.click_search_log.
  destruct (decide (Store.sl_id row = search_id)) as [Hrow|Hrow]; simpl.
  - by rewrite decide_True.
  - by rewrite decide_False.
Qed.

Lemma record_click_without_expert_witness :
  let r := record_click 1 None Examples.seeded_world in
  Store.sl_clicked <$> Store.search_logs (committed (conn (snd r))) = [true]
  ∧ Store.expert_searches (committed (conn (snd r)))
    = Store.expert_searches (committed (conn Examples.seeded_world)).
Proof.
  intros r. split; [reflexivity|].
  apply (record_click_without_expert 1 None Examples.seeded_world); reflexivity.
Defined.

(** X24: an attribution recorded by [record_expert_search] and then clicked
    through [record_click] with the same search id and a non-empty expert
    id is found in the committed table as the last row, with the rank it
    was recorded with, clicked, and stamped with the time of the click. *)
Theorem attribution_click_round_trip (search_id : Z) (expert_id : string)
    (rank_position now : Z) (w : World) :
  expert_id ≠ EmptyString →
  faults (conn w) = [] →
  let w1 := snd (record_expert_search search_id expert_id rank_position w) in
  let w2 := snd (record_click search_id (Some expert_id) (at_time now w1)) in
  last (Store.expert_searches (committed (conn w2)))
  = Some {| Store.es_search_id := search_id; Store.es_expert_id := expert_id;
            Store.es_rank_position := rank_position; Store.es_clicked := true;
            Store.es_click_timestamp := Some now |}.
Proof.
  intros Hne Hf w1 w2. subst w2 w1.
  rewrite record_expert_search_ok by done. simpl.
  rewrite record_click_ok by done. simpl.
  rewrite fmap_app. simpl. rewrite last_snoc.
  unfold Store.click_expert_search. simpl. by rewrite decide_True.
Qed.

Lemma attribution_click_round_trip_witness :
  let w1 := snd (record_expert_search 1 "e9" 2 Examples.seeded_world) in
  let w2 := snd (record_click 1 (Some "e9") (at_time 30 w1)) in
  last (Store.expert_searches (committed (conn w2)))
  = Some {| Store.es_search_id := 1; Store.es_expert_id := "e9";
            Store.es_rank_position := 2; Store.es_clicked := true;
            Store.es_click_timestamp := Some 30 |}.
Proof.
  apply (attribution_click_round_trip 1 "e9" 2 30 Examples.seeded_world);
    [discriminate|reflexivity].
Defined.

Lemma cur_execute_ok (q : Store.statement) (w : World) (rest : list (option exn)) :
  faults (conn w) = None :: rest →
  cur_execute q w
  = (Ok (),
     set_conn {| committed := committed (conn w);
                 pending := (Store.run q (clock (conn w)) (pending (conn w))).1;
                 fetched := (Store.run q (clock (conn w)) (pending (conn w))).2;
                 clock := clock (conn w);
                 faults := rest |} w).
Proof.
  intros Hf. unfold cur_execute. rewrite Hf. simpl.
  by destruct (Store.run q (clock (conn w)) (pending (conn w))).
Qed.

(** X25: on the shared connection a statement can be lost without any
    error.  If, between the [cur.execute] and the [conn.commit] of one call
    of [execute], another call of [execute] has its statement rejected, the
    rollback of the second discards the statement of the first: the commit
    succeeds and the committed store is the one before. *)
Theorem overtaken_execute_loses_statement (mine theirs : Store.statement) (e : exn)
    (rest : list (option exn)) (w : World) :
  quiescent w →
  faults (conn w) = None :: Some e :: rest →
  let r := overtaken_execute mine theirs w in
  fst r = Ok ()
  ∧ committed (conn (snd r)) = committed (conn w)
  ∧ quiescent (snd r).
Proof.
  intros Hq Hf r. unfold quiescent in Hq.
  assert (r = overtaken_execute mine theirs w) as Hr by done.
  unfold overtaken_execute in Hr.
  erewrite M_bind_ok in Hr by (by apply (cur_execute_ok _ _ (Some e :: rest))).
  erewrite M_bind_ok in Hr; cycle 1.
  { erewrite try_except_raise; [reflexivity|].
    apply M_bind_raise. by apply (execute_fault _ _ e rest). }
  rewrite Hr. done.
Qed.

Lemma overtaken_execute_loses_statement_witness :
  let mine := Store.UpdateSearchSession 1 1 in
  let theirs := Store.UpdateSearchLogClicked 1 in
  committed (conn (snd (overtaken_execute mine theirs
                          (with_faults [None; Some (DatabaseError "deadlock detected")]
                             Examples.seeded_world))))
  = committed (conn Examples.seeded_world)
  ∧ Store.ss_query_count
      <$> Store.search_sessions
            (committed (conn (snd (overtaken_execute mine theirs Examples.seeded_world))))
    = [1].
Proof.
  intros mine theirs. split; [|reflexivity].
  apply (overtaken_execute_loses_statement mine theirs
           (DatabaseError "deadlock detected") []
           (with_faults [None; Some (DatabaseError "deadlock detected")]
              Examples.seeded_world));
    reflexivity.
Defined.

End manager_edges.
